(** * Rotary position embedding of [pwan/modules/model.py]

    A shallow embedding of the rotary-embedding code of the model file:
    the frequency-table builder [rope_params], the grid expander
    [rope_apply], the Triton kernel [rope_kernel] with its host wrapper
    [rope_apply_jit], and the table concatenation of [WanModel.__init__].

    Conventions of the embedding.
    - Python integers are [Z]; tensor sizes and memory offsets are [nat].
    - Floating-point values are idealised as real numbers ([R]): the
      theorems below speak about the exact arithmetic of the formulas, not
      about rounding.
    - A function that can raise returns a [result]. *)

From Stdlib Require Import ZArith Reals Lra Lia List.
From stdpp Require Import base list.

(** ** Errors *)

Inductive error : Set :=
  | AssertionError
  | RuntimeError
  | ValueError
  | IndexError
  | ZeroDivisionError
  | CompilationError.

Inductive result (A : Type) : Type :=
  | Ok (a : A)
  | Err (e : error).
Arguments Ok {A} a.
Arguments Err {A} e.

Definition bind {A B : Type} (r : result A) (k : A -> result B) : result B :=
  match r with
  | Ok a => k a
  | Err e => Err e
  end.

Notation "x <-! r ;; k" := (bind r (fun x => k))
  (at level 100, r at next level, right associativity).

(** [torch._check(cond)] and [assert cond] *)
Definition ensure (e : error) (cond : bool) : result unit :=
  if cond then Ok tt else Err e.

Definition is_ok {A : Type} (r : result A) : bool :=
  match r with Ok _ => true | Err _ => false end.

(** Monadic map over a list, left to right: the first error wins. *)
Fixpoint mapM {A B : Type} (f : A -> result B) (l : list A) : result (list B) :=
  match l with
  | [] => Ok []
  | a :: l' => b <-! f a ;; bs <-! mapM f l' ;; Ok (b :: bs)
  end.

(** ** The three-way split of the frequency pairs

    [rope_apply]: [freqs.split([c - 2 * (c // 3), c // 3, c // 3], dim=1)].
    Python's [//] on integers is floor division, which is [Z.div] for a
    positive divisor. *)

Definition split_sizes (c : Z) : Z * Z * Z :=
  (c - 2 * (c / 3), c / 3, c / 3)%Z.

(** [WanModel.__init__]: the [dim] arguments of the three [rope_params]
    calls, for head dimension [d]. *)
Definition wan_table_dims (d : Z) : Z * Z * Z :=
  (d - 4 * (d / 6), 2 * (d / 6), 2 * (d / 6))%Z.

(** ** Frequency tables *)

(** One stored 2x2 block, row-major: [[m00, m01], [m10, m11]]. *)
Record mat2 : Type := Mat2 { m00 : R; m01 : R; m10 : R; m11 : R }.

(** A tensor of shape [t_rows, t_cols, 2, 2]. *)
Record table : Type := Table {
  t_rows : nat;
  t_cols : nat;
  t_data : list (list mat2)
}.

Definition table_wf (t : table) : Prop :=
  length (t_data t) = t_rows t /\
  Forall (fun row => length row = t_cols t) (t_data t).

(** [torch.arange(end)]: raises for a negative bound. *)
Definition arange (n : Z) : result (list Z) :=
  if (n <? 0)%Z then Err RuntimeError
  else Ok (Z.of_nat <$> seq 0 (Z.to_nat n)).

(** [torch.arange(0, end, 2)]: 0, 2, 4, ... below [end]. *)
Definition arange_step2 (n : Z) : result (list Z) :=
  if (n <? 0)%Z then Err RuntimeError
  else Ok ((fun k => 2 * Z.of_nat k)%Z <$> seq 0 (Z.to_nat ((n + 1) / 2))).

(** The block stored for one angle: [stack([cos, -sin, sin, cos], dim=2)]
    viewed as 2x2. *)
Definition rot_block (a : R) : mat2 :=
  Mat2 (cos a) (- sin a) (sin a) (cos a).

(** [rope_params]. The entries are those of the source for [theta > 0],
    where [torch.pow(theta, e)] is [Rpower theta e]; for [theta <= 0] the
    source still returns a table (of the same shape), but its entries can
    be infinite or undefined and are not described by this model: below,
    only the shape and the outcome of the call are stated for such a
    [theta], never an entry. *)
Definition rope_params (max_seq_len dim : Z) (theta : R) : result table :=
  _ <-! ensure AssertionError (dim mod 2 =? 0)%Z ;;
  positions <-! arange max_seq_len ;;
  evens <-! arange_step2 dim ;;
  let inv_freq := (fun e => 1 / Rpower theta (IZR e / IZR dim))%R <$> evens in
  (* torch.outer *)
  let freqs := (fun p => (fun w => IZR p * w)%R <$> inv_freq) <$> positions in
  Ok {| t_rows := Z.to_nat max_seq_len;
        t_cols := Z.to_nat (dim / 2);
        t_data := (fun row => rot_block <$> row) <$> freqs |}.

(** The entry of a table at [p, i], when inside the table. *)
Definition table_at (t : table) (p i : nat) : option mat2 :=
  row ← t_data t !! p; row !! i.

(** [torch.cat(tables, dim=1)] for three tables of equal height. *)
Definition cat_cols (a b c : table) : result table :=
  _ <-! ensure RuntimeError
        ((t_rows a =? t_rows b)%nat && (t_rows b =? t_rows c)%nat) ;;
  Ok {| t_rows := t_rows a;
        t_cols := t_cols a + t_cols b + t_cols c;
        t_data := zip_with (fun ra rbc => ra ++ rbc) (t_data a)
                    (zip_with (fun rb rc => rb ++ rc) (t_data b) (t_data c)) |}.

(** [WanModel.__init__], the buffer [self.freqs] for head dimension [d]
    (after [assert (dim // num_heads) % 2 == 0]). *)
Definition wan_freqs (d : Z) : result table :=
  _ <-! ensure AssertionError (d mod 2 =? 0)%Z ;;
  let '(dt, dh, dw) := wan_table_dims d in
  ft <-! rope_params 1024 dt 10000 ;;
  fh <-! rope_params 1024 dh 10000 ;;
  fw <-! rope_params 1024 dw 10000 ;;
  cat_cols ft fh fw.

(** ** [rope_apply]: expansion over the grid and rotation *)

(** [x] of shape [B, L, num_heads, d]. *)
Record tensor4 : Type := Tensor4 {
  x_B : nat;
  x_L : nat;
  x_n : nat;
  x_d : nat;
  x_data : list (list (list (list R)))
}.

Definition tensor4_wf (x : tensor4) : Prop :=
  length (x_data x) = x_B x /\
  Forall (fun sample =>
    length sample = x_L x /\
    Forall (fun token =>
      length token = x_n x /\
      Forall (fun head => length head = x_d x) token) sample) (x_data x).

(** [freqs.split([c - 2 * (c // 3), c // 3, c // 3], dim=1)]: the sizes
    have to add up to [freqs.size(1)]. *)
Definition split_bands (freqs : table) (c : nat)
  : result (list (list mat2) * list (list mat2) * list (list mat2)) :=
  let '(ct, ch, cw) := split_sizes (Z.of_nat c) in
  _ <-! ensure RuntimeError (ct + ch + cw =? Z.of_nat (t_cols freqs))%Z ;;
  let nt := Z.to_nat ct in
  let nh := Z.to_nat ch in
  let nw := Z.to_nat cw in
  Ok (take nt <$> t_data freqs,
      (fun row => take nh (drop nt row)) <$> t_data freqs,
      (fun row => take nw (drop (nt + nh) row)) <$> t_data freqs).

(** [reshape(..., -1, 1, 2)] on one head: consecutive (re, im) pairs. *)
Fixpoint pairs (l : list R) : list (R * R) :=
  match l with
  | re :: im :: l' => (re, im) :: pairs l'
  | _ => []
  end.

(** [view(.., -1)] on a row of 2x2 blocks: the blocks laid out flat. *)
Definition flat_block (m : mat2) : list R := [m00 m; m01 m; m10 m; m11 m].
Definition flat_row (row : list mat2) : list R := concat (flat_block <$> row).

(** [reshape(.., c, 2, 2)] on a flat vector: consecutive 2x2 blocks. *)
Fixpoint blocks (l : list R) : list mat2 :=
  match l with
  | a :: b :: c :: d :: l' => Mat2 a b c d :: blocks l'
  | _ => []
  end.

(** [freqs_i]: the three bands broadcast over the [f, h, w] grid,
    concatenated along the last axis, and flattened to one vector of
    blocks per token, in row-major order of the grid. *)
Definition grid_freqs (bt bh bw : list (list mat2)) (f h w : nat)
  : list (list mat2) :=
  let cat :=
    (fun rt =>
       (fun rh =>
          (fun rw => flat_row rt ++ flat_row rh ++ flat_row rw)
            <$> take w bw)
         <$> take h bh)
      <$> take f bt in
  blocks <$> concat (concat cat).

(** [(x_i * freqs_i).sum(4)] on one coordinate pair: the product of the
    stored block with the column vector (re, im). *)
Definition apply_block (m : mat2) (p : R * R) : list R :=
  [ (p.1 * m00 m + p.2 * m01 m)%R; (p.1 * m10 m + p.2 * m11 m)%R ].

(** One head: the pairs against the token's blocks, then [flatten(2)]. *)
Definition rotate_head (fv : list mat2) (head : list R) : list R :=
  concat (zip_with apply_block fv (pairs head)).

(** The token's vector of blocks is broadcast over the heads. *)
Definition rotate_token (fv : list mat2) (token : list (list R))
  : list (list R) :=
  rotate_head fv <$> token.

(** The body of the loop over the samples. *)
Definition rope_apply_sample (x : tensor4)
    (bands : list (list mat2) * list (list mat2) * list (list mat2))
    (max_seq_len : nat) (i : nat) (grid : Z * Z * Z)
  : result (list (list (list R))) :=
  let '(f, h, w) := grid in
  let '(bt, bh, bw) := bands in
  let l := x_L x in
  let n := x_n x in
  let c := (x_d x / 2)%nat in
  let seq_len := (f * h * w)%Z in
  _ <-! ensure RuntimeError (seq_len =? Z.of_nat l)%Z ;;
  _ <-! ensure RuntimeError (f * h * w =? Z.of_nat l)%Z ;;
  (* x[i, :seq_len] *)
  sample <-! match x_data x !! i with
             | Some s => Ok s
             | None => Err IndexError
             end ;;
  let x_b := take (Z.to_nat seq_len) sample in
  (* reshape(seq_len, n, -1, 1, 2): the inferred size is ambiguous for an
     empty tensor, and the last axis has to split into pairs *)
  _ <-! ensure RuntimeError
        (negb (Z.to_nat seq_len * n =? 0)%nat && (x_d x mod 2 =? 0)%nat) ;;
  (* torch._check_is_size *)
  _ <-! ensure RuntimeError (0 <=? f)%Z ;;
  _ <-! ensure RuntimeError (0 <=? h)%Z ;;
  _ <-! ensure RuntimeError (0 <=? w)%Z ;;
  _ <-! ensure RuntimeError (f <=? Z.of_nat max_seq_len)%Z ;;
  _ <-! ensure RuntimeError (h <=? Z.of_nat max_seq_len)%Z ;;
  _ <-! ensure RuntimeError (w <=? Z.of_nat max_seq_len)%Z ;;
  (* reshape(-1, 1, c, 2, 2): ambiguous when c = 0 *)
  _ <-! ensure RuntimeError (negb (c =? 0)%nat) ;;
  let freqs_i := grid_freqs bt bh bw (Z.to_nat f) (Z.to_nat h) (Z.to_nat w) in
  let x_i := zip_with rotate_token freqs_i x_b in
  let x_i := x_i ++ drop (Z.to_nat seq_len) sample in
  _ <-! ensure RuntimeError (negb (2 * Z.of_nat l - f * h * w =? 1)%Z) ;;
  Ok x_i.

(** [enumerate] *)
Definition enumerate {A : Type} (l : list A) : list (nat * A) :=
  zip (seq 0 (length l)) l.

Definition rope_apply (x : tensor4) (grid_sizes : list (Z * Z * Z))
    (freqs : table) : result tensor4 :=
  let c := (x_d x / 2)%nat in
  let max_seq_len := t_rows freqs in
  bands <-! split_bands freqs c ;;
  output <-! mapM (fun ig => rope_apply_sample x bands max_seq_len ig.1 ig.2)
               (enumerate grid_sizes) ;;
  (* torch.stack needs at least one tensor *)
  _ <-! ensure RuntimeError (negb (length output =? 0)%nat) ;;
  Ok {| x_B := length output;
        x_L := x_L x;
        x_n := x_n x;
        x_d := x_d x;
        x_data := output |}.

(** Reading one scalar of a [B, L, n, d] tensor. *)
Definition x_at (x : tensor4) (i t k e : nat) : option R :=
  sample ← x_data x !! i; token ← sample !! t; head ← token !! k; head !! e.

(** ** The Triton kernel [rope_kernel] and its wrapper [rope_apply_jit] *)

(** A float tensor as the wrapper sees it: its shape, whether it is
    contiguous, the byte width of an element, and (for a contiguous
    tensor) the buffer behind its data pointer. *)
Record ftensor : Type := FTensor {
  f_shape : list nat;
  f_contiguous : bool;
  f_element_size : nat;
  f_data : list R
}.

(** An integer tensor (the positions). *)
Record itensor : Type := ITensor {
  i_shape : list nat;
  i_contiguous : bool;
  i_data : list Z
}.

Definition numel (shape : list nat) : nat := foldr Nat.mul 1%nat shape.

Definition ftensor_wf (t : ftensor) : Prop :=
  length (f_data t) = numel (f_shape t).
Definition itensor_wf (t : itensor) : Prop :=
  length (i_data t) = numel (i_shape t).

(** [triton.next_power_of_2]: the smallest power of two that is at least
    [n]; the bit trick of the library returns 0 for 0. *)
Definition next_power_of_2 (n : nat) : nat :=
  if (n =? 0)%nat then 0%nat else (2 ^ Nat.log2_up n)%nat.

(** [triton.cdiv] *)
Definition cdiv (a b : nat) : nat := ((a + b - 1) / b)%nat.

(** Python's [range(lo, hi, step)] for a positive step. *)
Definition range_step (lo hi step : nat) : list nat :=
  (fun k => lo + k * step)%nat <$> seq 0 (cdiv (hi - lo) step).

(** One lane of a head group: what it stores, and where. *)
Record lane : Type := Lane {
  lane_mask : bool;
  re_ofs : nat;
  im_ofs : nat;
  re_out : R;
  im_out : R
}.

(** [tl.load(ptr + ofs, mask=mask)]; a lane that is masked off holds no
    defined value, and never stores one. *)
Definition load (mem : list R) (ofs : nat) (mask : bool) : R :=
  if mask then default 0%R (mem !! ofs) else 0%R.

(** [tl.store(ptr + ofs, v, mask=mask)] *)
Definition store (mem : list R) (ofs : nat) (v : R) (mask : bool) : list R :=
  if mask then <[ofs := v]> mem else mem.

(** The argument checks at the head of [rope_apply_jit]; they return
    [N, H, D = x.shape]. *)
Definition rope_apply_jit_checks (x : ftensor) (pos : itensor)
    (freqs : ftensor) : result (nat * nat * nat) :=
  _ <-! ensure ValueError (length (f_shape x) =? 3)%nat ;;
  _ <-! ensure ValueError (f_contiguous x) ;;
  match f_shape x with
  | [N; H; D] =>
      _ <-! ensure ValueError
            (negb (negb (length (i_shape pos) =? 1)%nat
                   || negb (hd 0%nat (i_shape pos) =? N)%nat)) ;;
      _ <-! ensure ValueError (i_contiguous pos) ;;
      _ <-! ensure ValueError
            (negb (negb (length (f_shape freqs) =? 1)%nat
                   || negb (hd 0%nat (f_shape freqs) * 2 =? D)%nat)) ;;
      _ <-! ensure ValueError (f_contiguous freqs) ;;
      Ok (N, H, D)
  | _ => Err ValueError
  end.

Section Kernel.
(** The hardware approximations [sin.approx.f32] and [cos.approx.f32]. *)
Variables sin_approx cos_approx : R -> R.
(** The load of the positions is not masked: a lane past the last head
    reads whatever lies behind the buffer. *)
Variable stray_pos : nat -> Z.

Definition load_pos (pos : list Z) (ofs : nat) : Z :=
  default (stray_pos ofs) (pos !! ofs).

Section Launch.
Variables (pos : list Z) (freqs : list R) (n_heads : nat).
Variables (HEAD_DIM HEAD_DIM2 HEADS_PER_ELEM : nat).
Variables (HEAD_GROUP_SIZE HEADS_PER_BLOCK : nat).
Variable APPROX_TRIGO : bool.

(** The lane at row [g] of the group and column [j] of the
    frequencies, computed from the memory [x] before any store. *)
Definition kernel_lane (x : list R) (head_idx g j : nat) : lane :=
  let head_mask := (2 * j <? HEAD_DIM)%nat in
  let freq := load freqs j head_mask in
  let grp_ofs := (head_idx + g)%nat in
  let head_pos := load_pos pos (grp_ofs / HEADS_PER_ELEM) in
  let angle := (IZR head_pos * freq)%R in
  let sine := if APPROX_TRIGO then sin_approx angle else sin angle in
  let cosine := if APPROX_TRIGO then cos_approx angle else cos angle in
  let re := (grp_ofs * HEAD_DIM + 2 * j)%nat in
  let im := (re + 1)%nat in
  let mask := (grp_ofs <? n_heads)%nat && head_mask in
  let re_x := load x re mask in
  let im_x := load x im mask in
  {| lane_mask := mask;
     re_ofs := re;
     im_ofs := im;
     re_out := (re_x * cosine - im_x * sine)%R;
     im_out := (im_x * cosine + re_x * sine)%R |}.

(** The body of the loop over the head groups: all lanes load, then
    all store the real parts, then all store the imaginary parts. *)
Definition group_step (x : list R) (head_idx : nat) : list R :=
  let lanes :=
    g ← seq 0 HEAD_GROUP_SIZE;
    j ← seq 0 HEAD_DIM2;
    [kernel_lane x head_idx g j] in
  let x1 :=
    foldl (fun mem o => store mem (re_ofs o) (re_out o) (lane_mask o))
      x lanes in
  foldl (fun mem o => store mem (im_ofs o) (im_out o) (lane_mask o))
    x1 lanes.

(** One program instance of the kernel. *)
Definition rope_kernel (x : list R) (block_idx : nat) : list R :=
  foldl group_step x
    (range_step (block_idx * HEADS_PER_BLOCK)
       ((block_idx + 1) * HEADS_PER_BLOCK) HEAD_GROUP_SIZE).

(** [rope_kernel[(n_blocks,)](...)]: [tl.arange(0, n)] is rejected
    when the kernel is compiled unless [n] is positive; otherwise the
    program instances run, here one after the other. *)
Definition launch (n_blocks : nat) (x : list R) : result unit * list R :=
  if (HEAD_DIM2 =? 0)%nat || (HEAD_GROUP_SIZE =? 0)%nat
  then (Err CompilationError, x)
  else (Ok tt, foldl rope_kernel x (seq 0 n_blocks)).
End Launch.

(** The wrapper works in place: it returns what the call returns or
    raises, together with the buffer of [x] afterwards. *)
Definition rope_apply_jit (x : ftensor) (pos : itensor) (freqs : ftensor)
    (approx_trigo : bool) : result unit * list R :=
  match rope_apply_jit_checks x pos freqs with
  | Err e => (Err e, f_data x)
  | Ok (N, H, D) =>
      let n_heads := (N * H)%nat in
      match
        (if (n_heads <? 2048)%nat then Ok (1%nat, 1%nat)
         else
           let head_size := (D * f_element_size x)%nat in
           _ <-! ensure ZeroDivisionError (negb (head_size =? 0)%nat) ;;
           Ok (Nat.max 1 (2048 / head_size),
               next_power_of_2 (512 / head_size)))
      with
      | Err e => (Err e, f_data x)
      | Ok (HEADS_PER_BLOCK, HEAD_GROUP_SIZE) =>
          let n_blocks := cdiv n_heads HEADS_PER_BLOCK in
          launch (i_data pos) (f_data freqs) n_heads
            D (next_power_of_2 D / 2) H HEAD_GROUP_SIZE HEADS_PER_BLOCK
            approx_trigo n_blocks (f_data x)
      end
  end.
End Kernel.

(** The table that [rope_params] returns on an even, non-negative [dim]
    and a non-negative [max_seq_len]. *)
Definition rope_table (max_seq_len dim : Z) (theta : R) : table :=
  {| t_rows := Z.to_nat max_seq_len;
     t_cols := Z.to_nat (dim / 2);
     t_data :=
       (fun p : nat =>
          (fun i : nat =>
             rot_block (IZR (Z.of_nat p)
                        * (1 / Rpower theta
                                 (IZR (2 * Z.of_nat i) / IZR dim)))%R)
            <$> seq 0 (Z.to_nat (dim / 2)))
         <$> seq 0 (Z.to_nat max_seq_len) |}.

(** A table all of whose blocks are rotation blocks, as [rope_params]
    builds them. *)
Definition rotation_table (t : table) : Prop :=
  Forall (Forall (fun m => exists a : R, m = rot_block a)) (t_data t).

(** ** A reference description of the kernel

    What the kernel is expected to compute, written directly: the buffer
    is a sequence of (re, im) pairs, and pair [k] is rotated by the angle
    [ang k]. The kernel is compared with it below. *)

Definition rot_mem (ang : nat -> R) (x : list R) : list R :=
  imap (fun o v =>
          let a := ang (o / 2)%nat in
          if Nat.even o
          then (v * cos a - default 0 (x !! (o + 1)%nat) * sin a)%R
          else (v * cos a + default 0 (x !! (o - 1)%nat) * sin a)%R) x.

(** Whether pair [k] of the buffer belongs to a head of the group that
    starts at [head_idx] and is not masked off, for heads of [half]
    pairs. *)
Definition in_group (n_heads half HEAD_GROUP_SIZE : nat)
    (head_idx k : nat) : bool :=
  (head_idx <=? k / half)%nat
  && (k / half <? head_idx + HEAD_GROUP_SIZE)%nat
  && (k / half <? n_heads)%nat.

(** The angle that the head group starting at [head_idx] applies to pair
    [k]: the position of the head times the frequency of the pair inside
    the group, and no rotation outside. *)
Definition group_angle (stray_pos : nat -> Z) (pos : list Z)
    (freqs : list R) (n_heads half HEADS_PER_ELEM HEAD_GROUP_SIZE : nat)
    (head_idx k : nat) : R :=
  if in_group n_heads half HEAD_GROUP_SIZE head_idx k
  then (IZR (load_pos stray_pos pos (k / half / HEADS_PER_ELEM))
        * load freqs (k mod half) true)%R
  else 0%R.

(** The starts of the head groups that a launch of [n_blocks] program
    instances runs through, in order. *)
Definition launch_heads (HEAD_GROUP_SIZE HEADS_PER_BLOCK n_blocks : nat)
  : list nat :=
  b ← seq 0 n_blocks;
  range_step (b * HEADS_PER_BLOCK) ((b + 1) * HEADS_PER_BLOCK)
    HEAD_GROUP_SIZE.

(** The angle that a whole launch applies to pair [k]. *)
Definition launch_angle (stray_pos : nat -> Z) (pos : list Z)
    (freqs : list R) (n_heads half HEADS_PER_ELEM : nat)
    (HEAD_GROUP_SIZE : nat) (heads : list nat) (k : nat) : R :=
  foldr Rplus 0%R
    ((fun head_idx =>
        group_angle stray_pos pos freqs n_heads half HEADS_PER_ELEM
          HEAD_GROUP_SIZE head_idx k) <$> heads).

(** The same tensor over another buffer. *)
Definition with_data (x : ftensor) (mem : list R) : ftensor :=
  {| f_shape := f_shape x;
     f_contiguous := f_contiguous x;
     f_element_size := f_element_size x;
     f_data := mem |}.

(** The positions [pos1 + pos2], entry by entry. *)
Definition add_pos (pos1 pos2 : itensor) : itensor :=
  {| i_shape := i_shape pos1;
     i_contiguous := i_contiguous pos1;
     i_data := zip_with Z.add (i_data pos1) (i_data pos2) |}.

(** ** Other functions of the file *)

(** [sinusoidal_embedding_1d(dim, position)]: one row per position, the
    cosines of [half] frequencies followed by their sines. *)
Definition sinusoidal_embedding_1d (dim : Z) (position : list R)
  : result (list (list R)) :=
  _ <-! ensure AssertionError (dim mod 2 =? 0)%Z ;;
  let half := (dim / 2)%Z in
  idx <-! arange half ;;
  let freq := (fun i => Rpower 10000 (- (IZR i / IZR half)))%R <$> idx in
  (* torch.outer *)
  let sinusoid := (fun p => (fun w => p * w)%R <$> freq) <$> position in
  (* torch.cat([cos, sin], dim=1) *)
  Ok ((fun row => (cos <$> row) ++ (sin <$> row)) <$> sinusoid).

(** [x.pow(2).mean(dim=-1, keepdim=True)] on the last axis. *)
Definition mean_square (x : list R) : R :=
  (foldr Rplus 0 ((fun v => v * v) <$> x) / INR (length x))%R.

(** [WanRMSNorm._norm] on the last axis:
    [x * torch.rsqrt(x.pow(2).mean(dim=-1, keepdim=True) + eps)]. *)
Definition WanRMSNorm_norm (eps : R) (x : list R) : list R :=
  (fun v => v * (1 / sqrt (mean_square x + eps)))%R <$> x.

(** [view]: a flat buffer cut into consecutive pieces of [n] elements. *)
Definition chunks {A : Type} (n : nat) (l : list A) : list (list A) :=
  (fun i => take n (drop (i * n) l)) <$> seq 0 (length l / n).

(** Reading one scalar of a 7-dimensional tensor, 0 outside of it. *)
Definition at7 (v : list (list (list (list (list (list (list R)))))))
    (i1 i2 i3 i4 i5 i6 i7 : nat) : R :=
  default 0%R
    (a ← v !! i1; b ← a !! i2; c ← b !! i3; d ← c !! i4;
     e ← d !! i5; g ← e !! i6; g !! i7).

(** [torch.einsum('fhwpqrc->cfphqwr', u)]: the axes permuted. *)
Definition einsum_fhwpqrc_cfphqwr (F H W P Q T C : nat)
    (v : list (list (list (list (list (list (list R)))))))
  : list (list (list (list (list (list (list R)))))) :=
  (fun c =>
     (fun f =>
        (fun p =>
           (fun h =>
              (fun q =>
                 (fun w =>
                    (fun r => at7 v f h w p q r c) <$> seq 0 T)
                   <$> seq 0 W)
                <$> seq 0 Q)
             <$> seq 0 H)
          <$> seq 0 P)
       <$> seq 0 F)
    <$> seq 0 C.

(** The body of the loop of [WanModel.unpatchify] for one sample [u] of
    shape [L, width] and its grid [v = (F, H, W)], with
    [patch_size = (P, Q, T)] and [c = out_dim]:
    [u[:prod(v)].view(F, H, W, P, Q, T, c)], the einsum, and
    [reshape(c, F * P, H * Q, W * T)]. *)
Definition unpatchify_sample (patch_size : nat * nat * nat) (c : nat)
    (u : list (list R)) (v : nat * nat * nat)
  : result (list (list (list (list R)))) :=
  let '(P, Q, T) := patch_size in
  let '(F, H, W) := v in
  let flat := concat (take (F * H * W) u) in
  (* view: the sizes have to account for every element *)
  _ <-! ensure RuntimeError
        (length flat =? F * H * W * P * Q * T * c)%nat ;;
  let u7 :=
    chunks H (chunks W (chunks P (chunks Q (chunks T (chunks c flat))))) in
  let e := einsum_fhwpqrc_cfphqwr F H W P Q T c u7 in
  (* reshape: the axes (f, p), (h, q) and (w, r) merged *)
  Ok ((fun ec =>
         (fun efp => (fun ehq => concat ehq) <$> concat efp) <$> concat ec)
        <$> e).

(** [WanModel.unpatchify]: the samples zipped with their grids. *)
Definition unpatchify (patch_size : nat * nat * nat) (out_dim : nat)
    (x : list (list (list R))) (grid_sizes : list (nat * nat * nat))
  : result (list (list (list (list (list R))))) :=
  mapM (fun uv => unpatchify_sample patch_size out_dim uv.1 uv.2)
    (zip x grid_sizes).

(** ** Reference formulas for the properties below *)

(** The angle of the three-axis rotary embedding of [WanModel] for head
    dimension [d]: pair [j] of the token at grid position [(ft, ht, wt)]
    turns with the temporal, the height or the width position according
    to the band in which [j] lies. *)
Definition wan_angle (d : Z) (ft ht wt j : nat) : R :=
  let '(dt, dh, dw) := wan_table_dims d in
  let nt := Z.to_nat (dt / 2) in
  let nh := Z.to_nat (dh / 2) in
  if (j <? nt)%nat
  then (INR ft / Rpower 10000 (2 * INR j / IZR dt))%R
  else if (j <? nt + nh)%nat
  then (INR ht / Rpower 10000 (2 * INR (j - nt) / IZR dh))%R
  else (INR wt / Rpower 10000 (2 * INR (j - nt - nh) / IZR dw))%R.

(** The product of two 2x2 blocks. *)
Definition mat2_mul (a b : mat2) : mat2 :=
  {| m00 := (m00 a * m00 b + m01 a * m10 b)%R;
     m01 := (m00 a * m01 b + m01 a * m11 b)%R;
     m10 := (m10 a * m00 b + m11 a * m10 b)%R;
     m11 := (m10 a * m01 b + m11 a * m11 b)%R |}.

(** The positions negated, entry by entry. *)
Definition neg_pos (pos : itensor) : itensor :=
  {| i_shape := i_shape pos;
     i_contiguous := i_contiguous pos;
     i_data := Z.opp <$> i_data pos |}.

(** ** Small inputs used as examples *)

(** One sample of two tokens, one head of dimension 2. *)
Definition two_tokens : tensor4 :=
  {| x_B := 1; x_L := 2; x_n := 1; x_d := 2;
     x_data := [[ [[1; 0]]; [[0; 1]] ]]%R |}.

(** A table of two positions and one frequency. *)
Definition two_rows : table :=
  {| t_rows := 2; t_cols := 1;
     t_data := [[rot_block 0]; [rot_block 1]] |}.

(** * Properties *)

(** ** The result monad *)

Lemma ensure_true e : ensure e true = Ok tt.
Proof. reflexivity. Qed.

Lemma ensure_ok e b u : ensure e b = Ok u -> b = true.
Proof. destruct b; [reflexivity | discriminate]. Qed.

Lemma bind_ok {A B} (r : result A) (k : A -> result B) b :
  bind r k = Ok b -> exists a, r = Ok a /\ k a = Ok b.
Proof. destruct r as [a|e]; simpl; [eauto | discriminate]. Qed.

(** Peel one successful step off a hypothesis [bind r k = Ok b]. *)
Ltac bind_inv H :=
  let a := fresh "a" in
  let Ha := fresh "Hstep" in
  apply bind_ok in H; destruct H as (a & Ha & H).

(** Peel one [ensure] off, keeping the condition as a boolean equation. *)
Ltac ensure_inv H :=
  let a := fresh "u" in
  let Ha := fresh "Hcond" in
  apply bind_ok in H; destruct H as (a & Ha & H);
  apply ensure_ok in Ha; clear a.

(** ** Band arithmetic *)

Lemma split_sizes_total (c : Z) :
  let '(band_T, band_H, band_W) := split_sizes c in
  (band_T + band_H + band_W = c)%Z.
Proof. unfold split_sizes. lia. Qed.

(** C4: the split is [(c - 2 * (c // 3), c // 3, c // 3)]; the three
    bands add up to [c], and the temporal band is the common width of the
    other two plus the remainder of [c] by 3. *)
Theorem split_sizes_sum (c : Z) :
  split_sizes c = (c - 2 * (c / 3), c / 3, c / 3)%Z /\
  (let '(band_T, band_H, band_W) := split_sizes c in
   band_T + band_H + band_W = c /\
   band_H = band_W /\
   band_T = band_H + c mod 3 /\
   (c mod 3 <> 0 -> band_T <> band_H))%Z.
Proof.
  split; [reflexivity|]. unfold split_sizes.
  repeat split; Z.to_euclidean_division_equations; lia.
Qed.

(** C5 fails as stated: 10 pairs are not split into (6, 2, 2), nor 9
    pairs into (5, 2, 2). *)
Lemma split_sizes_10_9_not_as_claimed :
  split_sizes 10 <> (6, 2, 2)%Z /\ split_sizes 9 <> (5, 2, 2)%Z.
Proof. split; vm_compute; discriminate. Qed.

(** C5, amended: 10 pairs are split into (4, 3, 3) and 9 pairs into
    (3, 3, 3). *)
Theorem split_sizes_10_9 :
  split_sizes 10 = (4, 3, 3)%Z /\ split_sizes 9 = (3, 3, 3)%Z.
Proof. split; vm_compute; reflexivity. Qed.

Lemma wan_dims_pairs (d : Z) :
  (d mod 2 = 0)%Z ->
  let '(dt, dh, dw) := wan_table_dims d in
  (dt mod 2 = 0 /\ dh mod 2 = 0 /\ dw mod 2 = 0 /\
   (dt / 2, dh / 2, dw / 2) = split_sizes (d / 2))%Z.
Proof.
  intros Hd. unfold wan_table_dims, split_sizes.
  repeat split; try (Z.to_euclidean_division_equations; lia).
  f_equal; [f_equal|]; Z.to_euclidean_division_equations; lia.
Qed.

(** ** [rope_params] *)

Lemma arange_ok (n : Z) :
  (0 <= n)%Z -> arange n = Ok (Z.of_nat <$> seq 0 (Z.to_nat n)).
Proof. intros Hn. unfold arange. destruct (Z.ltb_spec n 0); [lia | done]. Qed.

Lemma arange_step2_ok (n : Z) :
  (0 <= n)%Z -> (n mod 2 = 0)%Z ->
  arange_step2 n = Ok ((fun k => 2 * Z.of_nat k)%Z <$> seq 0 (Z.to_nat (n / 2))).
Proof.
  intros Hn Hev. unfold arange_step2. destruct (Z.ltb_spec n 0); [lia|].
  do 3 f_equal. Z.to_euclidean_division_equations; lia.
Qed.

Lemma rope_params_ok (max_seq_len dim : Z) (theta : R) :
  (dim mod 2 = 0)%Z -> (0 <= max_seq_len)%Z -> (0 <= dim)%Z ->
  rope_params max_seq_len dim theta = Ok (rope_table max_seq_len dim theta).
Proof.
  intros Hev Hmax Hdim. unfold rope_params.
  rewrite (proj2 (Z.eqb_eq _ _) Hev). simpl.
  rewrite arange_ok by done. simpl.
  rewrite arange_step2_ok by done. simpl.
  unfold rope_table. do 2 f_equal.
  rewrite <- !list_fmap_compose. apply list_fmap_ext. intros _ p _. simpl.
  rewrite <- !list_fmap_compose. reflexivity.
Qed.

Lemma rope_table_wf (max_seq_len dim : Z) (theta : R) :
  table_wf (rope_table max_seq_len dim theta).
Proof.
  split; simpl.
  - by rewrite length_fmap, length_seq.
  - apply Forall_fmap, Forall_forall. intros p _. simpl.
    by rewrite length_fmap, length_seq.
Qed.

Lemma rope_table_at (max_seq_len dim : Z) (theta : R) (p i : nat) :
  (Z.of_nat p < max_seq_len)%Z -> (Z.of_nat i < dim / 2)%Z ->
  table_at (rope_table max_seq_len dim theta) p i =
  Some (rot_block (IZR (Z.of_nat p)
                   * (1 / Rpower theta (IZR (2 * Z.of_nat i) / IZR dim)))%R).
Proof.
  intros Hp Hi. unfold table_at, rope_table. simpl.
  rewrite list_lookup_fmap, lookup_seq_lt by lia. simpl.
  rewrite list_lookup_fmap, lookup_seq_lt by lia. reflexivity.
Qed.

(** C1: for even [dim >= 2], [theta > 0], [p < max_position] and
    [i < dim / 2], the table of [rope_params] holds at [p, i] the rotation
    matrix of the angle [p / theta ^ (2 i / dim)]. *)
Theorem rope_params_entry (max_position dim : Z) (theta : R) (p i : nat) :
  (dim mod 2 = 0)%Z -> (2 <= dim)%Z -> (0 < theta)%R ->
  (Z.of_nat p < max_position)%Z -> (Z.of_nat i < dim / 2)%Z ->
  let th := (INR p / Rpower theta (2 * INR i / IZR dim))%R in
  exists t,
    rope_params max_position dim theta = Ok t /\
    table_at t p i =
      Some {| m00 := cos th; m01 := - sin th; m10 := sin th; m11 := cos th |}.
Proof.
  intros Hev Hdim Hth Hp Hi th.
  exists (rope_table max_position dim theta). split.
  - apply rope_params_ok; lia.
  - rewrite rope_table_at by done. unfold rot_block.
    assert (Hang : (IZR (Z.of_nat p)
                    * (1 / Rpower theta (IZR (2 * Z.of_nat i) / IZR dim)))%R
                   = th).
    { unfold th. rewrite mult_IZR, <- !INR_IZR_INZ. unfold Rdiv.
      rewrite Rmult_1_l. reflexivity. }
    by rewrite Hang.
Qed.

Lemma rope_params_entry_witness :
  exists t,
    rope_params 4 2 10000 = Ok t /\
    table_at t 1 0 =
      Some {| m00 := cos (INR 1 / Rpower 10000 (2 * INR 0 / IZR 2));
              m01 := - sin (INR 1 / Rpower 10000 (2 * INR 0 / IZR 2));
              m10 := sin (INR 1 / Rpower 10000 (2 * INR 0 / IZR 2));
              m11 := cos (INR 1 / Rpower 10000 (2 * INR 0 / IZR 2)) |}.
Proof.
  apply (rope_params_entry 4 2 10000 1 0); [reflexivity | lia | lra | lia |].
  reflexivity.
Defined.

(** The scenario of the table at position 1, index 0, for [dim = 2]: the
    angle is one radian. *)
Lemma rope_params_one_radian :
  (INR 1 / Rpower 10000 (2 * INR 0 / IZR 2))%R = 1%R.
Proof.
  simpl. replace (2 * 0 / 2)%R with 0%R by lra.
  rewrite Rpower_O by lra. lra.
Qed.




(** ** The builder and the expander agree on the bands *)

Lemma split_cat_rows (ra rb rc : list (list mat2)) (nt nh nw : nat) :
  length ra = length rb -> length rb = length rc ->
  Forall (fun row => length row = nt) ra ->
  Forall (fun row => length row = nh) rb ->
  Forall (fun row => length row = nw) rc ->
  let rows := zip_with (fun a bc => a ++ bc) ra
                (zip_with (fun b c => b ++ c) rb rc) in
  take nt <$> rows = ra /\
  (fun row => take nh (drop nt row)) <$> rows = rb /\
  (fun row => take nw (drop (nt + nh) row)) <$> rows = rc.
Proof.
  revert rb rc. induction ra as [|a ra IH];
    intros [|b rb] [|c rc] Hab Hbc Ha Hb Hc; try discriminate; [done|].
  apply Forall_cons in Ha as [Hla Ha], Hb as [Hlb Hb], Hc as [Hlc Hc].
  simpl in Hab, Hbc.
  destruct (IH rb rc) as (IH1 & IH2 & IH3); [lia | lia | done..|].
  cbn [zip_with]. rewrite !fmap_cons.
  rewrite IH1, IH2, IH3. repeat split; f_equal.
  - rewrite take_app_le, take_ge by lia. done.
  - rewrite drop_app_length' by done.
    rewrite take_app_le, take_ge by lia. done.
  - rewrite app_assoc, drop_app_length' by (rewrite length_app; lia).
    apply take_ge. lia.
Qed.

Lemma split_bands_cat (a b c : table) (n : nat) :
  table_wf a -> table_wf b -> table_wf c ->
  t_rows a = t_rows b -> t_rows b = t_rows c ->
  split_sizes (Z.of_nat n)
    = (Z.of_nat (t_cols a), Z.of_nat (t_cols b), Z.of_nat (t_cols c)) ->
  exists t,
    cat_cols a b c = Ok t /\
    t_cols t = (t_cols a + t_cols b + t_cols c)%nat /\
    split_bands t n = Ok (t_data a, t_data b, t_data c).
Proof.
  intros [Hla Hwa] [Hlb Hwb] [Hlc Hwc] Hab Hbc Hsplit.
  unfold cat_cols. rewrite Hab, Hbc, !Nat.eqb_refl. cbn [andb ensure bind].
  eexists. split; [reflexivity|]. split; [reflexivity|].
  unfold split_bands. rewrite Hsplit. cbn [t_cols t_data].
  replace (_ =? _)%Z with true by (symmetry; apply Z.eqb_eq; lia).
  cbn [ensure bind]. rewrite !Nat2Z.id.
  destruct (split_cat_rows (t_data a) (t_data b) (t_data c)
              (t_cols a) (t_cols b) (t_cols c)) as (E1 & E2 & E3);
    [lia | lia | done..|].
  cbv zeta in E1, E2, E3. by rewrite E1, E2, E3.
Qed.

(** C10: for every even head dimension [d], the pair counts of the three
    tables built in [WanModel.__init__] are
    [(d - 4 * (d // 6)) / 2, d // 6, d // 6]; they add up to [d / 2] and
    are the split sizes of [rope_apply] for [c = d // 2], because
    [(d // 2) // 3 = d // 6]. On the tables themselves: splitting the
    concatenated buffer gives back the three tables. *)
Theorem wan_bands_agree (d : Z) :
  (d mod 2 = 0)%Z ->
  let '(dt, dh, dw) := wan_table_dims d in
  ((dt / 2, dh / 2, dw / 2) = ((d - 4 * (d / 6)) / 2, d / 6, d / 6) /\
   dt / 2 + dh / 2 + dw / 2 = d / 2 /\
   (d / 2) / 3 = d / 6 /\
   (dt / 2, dh / 2, dw / 2) = split_sizes (d / 2))%Z /\
  ((0 <= d)%Z ->
   exists ft fh fw t,
     rope_params 1024 dt 10000 = Ok ft /\
     rope_params 1024 dh 10000 = Ok fh /\
     rope_params 1024 dw 10000 = Ok fw /\
     wan_freqs d = Ok t /\
     (Z.of_nat (t_cols ft), Z.of_nat (t_cols fh), Z.of_nat (t_cols fw))
       = split_sizes (d / 2) /\
     t_cols t = Z.to_nat (d / 2) /\
     split_bands t (Z.to_nat d / 2) = Ok (t_data ft, t_data fh, t_data fw)).
Proof.
  intros Hev. pose proof (wan_dims_pairs d Hev) as Hdims.
  unfold wan_freqs. rewrite (proj2 (Z.eqb_eq _ _) Hev).
  unfold wan_table_dims, split_sizes in *.
  destruct Hdims as (Ht & Hh & Hw & Hsplit). split.
  { repeat split; try done.
    - f_equal; [f_equal|]; Z.to_euclidean_division_equations; lia.
    - Z.to_euclidean_division_equations; lia.
    - Z.to_euclidean_division_equations; lia. }
  intros Hd.
  assert (0 <= d / 6)%Z by (Z.to_euclidean_division_equations; lia).
  assert (4 * (d / 6) <= d)%Z by (Z.to_euclidean_division_equations; lia).
  rewrite !rope_params_ok by (done || lia). cbn [ensure bind].
  pose proof (rope_table_wf 1024 (d - 4 * (d / 6)) 10000) as Hwt.
  pose proof (rope_table_wf 1024 (2 * (d / 6)) 10000) as Hwh.
  assert (Hct : t_cols (rope_table 1024 (d - 4 * (d / 6)) 10000)
                = Z.to_nat ((d - 4 * (d / 6)) / 2)) by reflexivity.
  assert (Hch : t_cols (rope_table 1024 (2 * (d / 6)) 10000)
                = Z.to_nat ((2 * (d / 6)) / 2)) by reflexivity.
  assert (Hrt : t_rows (rope_table 1024 (d - 4 * (d / 6)) 10000)
                = t_rows (rope_table 1024 (2 * (d / 6)) 10000))
    by reflexivity.
  set (ft := rope_table 1024 (d - 4 * (d / 6)) 10000) in *.
  set (fh := rope_table 1024 (2 * (d / 6)) 10000) in *.
  clearbody ft fh.
  assert (Hcols : (Z.of_nat (t_cols ft), Z.of_nat (t_cols fh),
                   Z.of_nat (t_cols fh))
                  = ((d / 2 - 2 * (d / 2 / 3))%Z, (d / 2 / 3)%Z,
                     (d / 2 / 3)%Z)).
  { rewrite Hct, Hch, <- Hsplit.
    rewrite !Z2Nat.id by (Z.to_euclidean_division_equations; lia). done. }
  destruct (split_bands_cat ft fh fh (Z.to_nat d / 2)) as (t & Hcat & Hc & Hs);
    try done.
  { unfold split_sizes. rewrite Hcols.
    rewrite Nat2Z.inj_div, Z2Nat.id by done. done. }
  exists ft, fh, fh, t. repeat split; try done.
  rewrite Hc, Hct, Hch. Z.to_euclidean_division_equations; lia.
Qed.

Lemma wan_bands_agree_witness :
  exists t, wan_freqs 12 = Ok t /\ t_cols t = 6%nat.
Proof.
  destruct (wan_bands_agree 12) as [_ H]; [reflexivity|].
  destruct H as (ft & fh & fw & t & _ & _ & _ & Ht & _ & Hc & _); [lia|].
  exists t. split; [exact Ht | exact Hc].
Defined.

(** ** [rope_apply] *)

Lemma mapM_ok_lookup {A B} (f : A -> result B) (l : list A) (bs : list B)
    (i : nat) (a : A) :
  mapM f l = Ok bs -> l !! i = Some a ->
  exists b, f a = Ok b /\ bs !! i = Some b.
Proof.
  revert bs i. induction l as [|a' l IH]; intros bs i Hm Hl; [done|].
  simpl in Hm. bind_inv Hm. bind_inv Hm. injection Hm as <-.
  destruct i as [|i]; simpl in *.
  - injection Hl as ->. eauto.
  - eauto.
Qed.

Lemma mapM_err_lookup {A B} (f : A -> result B) (l : list A)
    (i : nat) (a : A) (e : error) :
  l !! i = Some a -> f a = Err e -> exists e', mapM f l = Err e'.
Proof.
  intros Hl Hf. destruct (mapM f l) as [bs|e'] eqn:Hm; [|eauto].
  destruct (mapM_ok_lookup f l bs i a Hm Hl) as (b & Hb & _). congruence.
Qed.

Lemma enumerate_lookup {A} (l : list A) (i : nat) (a : A) :
  l !! i = Some a -> enumerate l !! i = Some (i, a).
Proof.
  intros Hl. unfold enumerate. apply lookup_zip_Some. split; [|done].
  apply lookup_seq_lt. by eapply lookup_lt_Some.
Qed.

Lemma lookup_concat_uniform {A} (ls : list (list A)) (n a b : nat)
    (l : list A) (v : A) :
  Forall (fun l => length l = n) ls ->
  ls !! a = Some l -> l !! b = Some v ->
  concat ls !! (a * n + b)%nat = Some v.
Proof.
  revert a. induction ls as [|l0 ls IH]; intros a Hall Ha Hb; [done|].
  apply Forall_cons in Hall as [Hl0 Hall].
  destruct a as [|a]; simpl in *.
  - injection Ha as ->. rewrite lookup_app_l; [done|].
    by eapply lookup_lt_Some.
  - rewrite lookup_app_r by lia.
    replace (n + a * n + b - length l0)%nat with (a * n + b)%nat by lia.
    by apply IH.
Qed.

Lemma flat_row_app (r1 r2 : list mat2) :
  flat_row (r1 ++ r2) = flat_row r1 ++ flat_row r2.
Proof. unfold flat_row. by rewrite fmap_app, concat_app. Qed.

Lemma blocks_flat_row (r : list mat2) : blocks (flat_row r) = r.
Proof.
  induction r as [|[a b c d] r IH]; [done|].
  change (flat_row (Mat2 a b c d :: r))
    with (a :: b :: c :: d :: flat_row r).
  cbn [blocks]. by rewrite IH.
Qed.

(** The vector of blocks of the token at grid position [(ft, ht, wt)] is
    the concatenation of the rows of the three bands. *)
Lemma grid_freqs_lookup (bt bh bw : list (list mat2)) (f h w ft ht wt : nat)
    (rT rH rW : list mat2) :
  (ft < f)%nat -> (ht < h)%nat -> (wt < w)%nat ->
  (h <= length bh)%nat -> (w <= length bw)%nat ->
  bt !! ft = Some rT -> bh !! ht = Some rH -> bw !! wt = Some rW ->
  grid_freqs bt bh bw f h w !! ((ft * h + ht) * w + wt)%nat
    = Some (rT ++ rH ++ rW).
Proof.
  intros Hft Hht Hwt Hh Hw HT HH HW. unfold grid_freqs.
  rewrite list_lookup_fmap.
  rewrite (lookup_concat_uniform _ w (ft * h + ht) wt
             ((fun rw => flat_row rT ++ flat_row rH ++ flat_row rw)
                <$> take w bw)
             (flat_row rT ++ flat_row rH ++ flat_row rW)).
  - simpl. by rewrite <- !flat_row_app, blocks_flat_row.
  - apply Forall_concat, Forall_fmap, Forall_forall. intros rt _. simpl.
    apply Forall_fmap, Forall_forall. intros rh _. simpl.
    rewrite length_fmap, length_take. lia.
  - apply (lookup_concat_uniform _ h ft ht
             ((fun rh => (fun rw => flat_row rT ++ flat_row rh ++ flat_row rw)
                           <$> take w bw) <$> take h bh)).
    + apply Forall_fmap, Forall_forall. intros rt _. simpl.
      rewrite length_fmap, length_take. lia.
    + rewrite list_lookup_fmap, lookup_take_lt by done. by rewrite HT.
    + rewrite list_lookup_fmap, lookup_take_lt by done. by rewrite HH.
  - rewrite list_lookup_fmap, lookup_take_lt by done. by rewrite HW.
Qed.

Lemma grid_freqs_length (bt bh bw : list (list mat2)) (f h w : nat) :
  (f <= length bt)%nat -> (h <= length bh)%nat -> (w <= length bw)%nat ->
  length (grid_freqs bt bh bw f h w) = (f * h * w)%nat.
Proof.
  intros Hf Hh Hw. unfold grid_freqs. rewrite length_fmap.
  assert (Hlen : forall {A} (ls : list (list A)) n,
             Forall (fun l => length l = n) ls ->
             length (concat ls) = (length ls * n)%nat).
  { intros A ls n Hall. induction Hall as [|l ls Hl _ IH]; [done|].
    simpl. rewrite length_app, IH. lia. }
  rewrite (Hlen _ _ w).
  - rewrite (Hlen _ _ h).
    + rewrite length_fmap, length_take, Nat.min_l by done. done.
    + apply Forall_fmap, Forall_forall. intros rt _. simpl.
      rewrite length_fmap, length_take. lia.
  - apply Forall_concat, Forall_fmap, Forall_forall. intros rt _. simpl.
    apply Forall_fmap, Forall_forall. intros rh _. simpl.
    rewrite length_fmap, length_take. lia.
Qed.

Lemma pairs_lookup (head : list R) (j : nat) (re im : R) :
  head !! (2 * j)%nat = Some re -> head !! (2 * j + 1)%nat = Some im ->
  pairs head !! j = Some (re, im).
Proof.
  revert head. induction j as [|j IH]; intros [|a [|b head]] Hre Him;
    simpl in *; try discriminate.
  - by injection Hre as ->; injection Him as ->.
  - replace (j + S (j + 0))%nat with (S (2 * j)) in * by lia.
    simpl in *. apply IH; [done|].
    by replace (2 * j + 1)%nat with (S (2 * j)) by lia.
Qed.

Lemma rotate_head_lookup (fv : list mat2) (head : list R) (j : nat)
    (m : mat2) (re im : R) :
  fv !! j = Some m -> pairs head !! j = Some (re, im) ->
  rotate_head fv head !! (2 * j)%nat
    = Some (re * m00 m + im * m01 m)%R /\
  rotate_head fv head !! (2 * j + 1)%nat
    = Some (re * m10 m + im * m11 m)%R.
Proof.
  intros Hm Hp. unfold rotate_head.
  assert (Hz : zip_with apply_block fv (pairs head) !! j
               = Some (apply_block m (re, im))).
  { by rewrite lookup_zip_with, Hm, Hp. }
  assert (Hall : Forall (fun l : list R => length l = 2%nat)
                   (zip_with apply_block fv (pairs head))).
  { apply Forall_forall. intros l Hl.
    apply elem_of_zip_with in Hl as (m' & p' & -> & _). done. }
  split.
  - replace (2 * j)%nat with (j * 2 + 0)%nat by lia.
    by apply (lookup_concat_uniform _ 2 j 0 _ _ Hall Hz).
  - replace (2 * j + 1)%nat with (j * 2 + 1)%nat by lia.
    by apply (lookup_concat_uniform _ 2 j 1 _ _ Hall Hz).
Qed.

(** What a sample has to satisfy for the loop body to return, and what
    the body returns then. *)
Lemma rope_apply_sample_ok (x : tensor4) (bt bh bw : list (list mat2))
    (max_seq_len i : nat) (f h w : Z) (x_i : list (list (list R))) :
  rope_apply_sample x (bt, bh, bw) max_seq_len i (f, h, w) = Ok x_i ->
  (f * h * w = Z.of_nat (x_L x))%Z /\
  (0 <= f <= Z.of_nat max_seq_len)%Z /\
  (0 <= h <= Z.of_nat max_seq_len)%Z /\
  (0 <= w <= Z.of_nat max_seq_len)%Z /\
  (x_L x <> 0)%nat /\ (x_L x <> 1)%nat /\ (x_n x <> 0)%nat /\
  (x_d x mod 2 = 0)%nat /\ (x_d x / 2 <> 0)%nat /\
  exists sample,
    x_data x !! i = Some sample /\
    x_i = zip_with rotate_token
            (grid_freqs bt bh bw (Z.to_nat f) (Z.to_nat h) (Z.to_nat w))
            (take (x_L x) sample)
          ++ drop (x_L x) sample.
Proof.
  unfold rope_apply_sample. intros H.
  ensure_inv H. apply Z.eqb_eq in Hcond. rewrite Hcond, Nat2Z.id in H.
  ensure_inv H. clear Hcond0.
  bind_inv H. destruct (x_data x !! i) as [sample|] eqn:Hs; [|done].
  injection Hstep as <-.
  ensure_inv H. apply andb_true_iff in Hcond0 as [Hne Hev].
  apply negb_true_iff, Nat.eqb_neq in Hne. apply Nat.eqb_eq in Hev.
  ensure_inv H. apply Z.leb_le in Hcond0.
  ensure_inv H. apply Z.leb_le in Hcond1.
  ensure_inv H. apply Z.leb_le in Hcond2.
  ensure_inv H. apply Z.leb_le in Hcond3.
  ensure_inv H. apply Z.leb_le in Hcond4.
  ensure_inv H. apply Z.leb_le in Hcond5.
  ensure_inv H. apply negb_true_iff, Nat.eqb_neq in Hcond6.
  ensure_inv H. apply negb_true_iff, Z.eqb_neq in Hcond7.
  injection H as <-.
  repeat split; try done; try lia.
  eauto.
Qed.

Lemma rope_apply_sample_length (x : tensor4) (bands : _) (max_seq_len i : nat)
    (f h w : Z) :
  (f * h * w <> Z.of_nat (x_L x))%Z ->
  rope_apply_sample x bands max_seq_len i (f, h, w) = Err RuntimeError.
Proof.
  intros Hne. unfold rope_apply_sample. destruct bands as [[bt bh] bw].
  by rewrite (proj2 (Z.eqb_neq _ _) Hne).
Qed.

(** What a successful call tells about each sample. *)
Lemma rope_apply_ok (x : tensor4) (grid_sizes : list (Z * Z * Z))
    (freqs : table) (y : tensor4) (i : nat) (f h w : Z) :
  rope_apply x grid_sizes freqs = Ok y ->
  grid_sizes !! i = Some (f, h, w) ->
  exists bt bh bw x_i,
    split_bands freqs (x_d x / 2) = Ok (bt, bh, bw) /\
    rope_apply_sample x (bt, bh, bw) (t_rows freqs) i (f, h, w) = Ok x_i /\
    x_data y !! i = Some x_i.
Proof.
  unfold rope_apply. intros H Hg.
  bind_inv H. destruct a as [[bt bh] bw].
  bind_inv H. ensure_inv H. injection H as <-.
  apply enumerate_lookup in Hg.
  destruct (mapM_ok_lookup _ _ _ _ _ Hstep0 Hg) as (x_i & Hx & Hl).
  exists bt, bh, bw, x_i. done.
Qed.

Lemma split_bands_ok (freqs : table) (c : nat) bt bh bw :
  table_wf freqs ->
  split_bands freqs c = Ok (bt, bh, bw) ->
  t_cols freqs = c /\
  length bt = t_rows freqs /\ length bh = t_rows freqs /\
  length bw = t_rows freqs /\
  (exists nt nh nw : nat,
     (Z.of_nat nt, Z.of_nat nh, Z.of_nat nw) = split_sizes (Z.of_nat c) /\
     (nt + nh + nw = c)%nat /\
     Forall (fun row => length row = nt) bt /\
     Forall (fun row => length row = nh) bh /\
     Forall (fun row => length row = nw) bw) /\
  forall p rT rH rW,
    bt !! p = Some rT -> bh !! p = Some rH -> bw !! p = Some rW ->
    t_data freqs !! p = Some (rT ++ rH ++ rW).
Proof.
  intros [Hrows Hcols]. unfold split_bands.
  pose proof (split_sizes_total (Z.of_nat c)) as Hsum.
  destruct (split_sizes (Z.of_nat c)) as [[ct ch] cw] eqn:Hsz.
  assert (0 <= ch /\ 0 <= cw /\ 0 <= ct)%Z as (Hch & Hcw & Hct).
  { unfold split_sizes in Hsz. injection Hsz as <- <- <-.
    Z.to_euclidean_division_equations; lia. }
  intros H. ensure_inv H. apply Z.eqb_eq in Hcond.
  injection H as <- <- <-.
  rewrite !length_fmap. split; [lia|]. do 3 (split; [done|]). split.
  { exists (Z.to_nat ct), (Z.to_nat ch), (Z.to_nat cw).
    rewrite !Z2Nat.id by done. split; [done|]. split; [lia|].
    repeat split; apply Forall_fmap; (eapply Forall_impl; [exact Hcols|]);
      simpl; intros row Hrow;
      rewrite ?length_take, ?length_drop; lia. }
  intros p rT rH rW HT HH HW. rewrite list_lookup_fmap in HT, HH, HW.
  destruct (t_data freqs !! p) as [row|] eqn:Hrow; [|done]. simpl in *.
  injection HT as <-. injection HH as <-. injection HW as <-.
  eapply Forall_lookup_1 in Hcols; [|exact Hrow]. simpl in Hcols.
  f_equal. symmetry.
  transitivity (take (Z.to_nat ct) row ++ drop (Z.to_nat ct) row);
    [|apply take_drop].
  f_equal.
  transitivity (take (Z.to_nat ch) (drop (Z.to_nat ct) row)
                ++ drop (Z.to_nat ch) (drop (Z.to_nat ct) row));
    [|apply take_drop].
  f_equal. rewrite drop_drop.
  apply take_ge. rewrite length_drop. lia.
Qed.

Lemma x_at_inv (x : tensor4) (i t k e : nat) (v : R) :
  x_at x i t k e = Some v ->
  exists sample token head,
    x_data x !! i = Some sample /\ sample !! t = Some token /\
    token !! k = Some head /\ head !! e = Some v.
Proof.
  unfold x_at. intros H.
  destruct (x_data x !! i) as [sample|] eqn:Hs; [|done]. simpl in H.
  destruct (sample !! t) as [token|] eqn:Ht; [|done]. simpl in H.
  destruct (token !! k) as [head|] eqn:Hh; [|done]. simpl in H.
  by exists sample, token, head.
Qed.

Lemma x_at_intro (x : tensor4) (i t k e : nat) sample token head :
  x_data x !! i = Some sample -> sample !! t = Some token ->
  token !! k = Some head -> x_at x i t k e = head !! e.
Proof.
  intros Hs Ht Hh. unfold x_at.
  rewrite Hs. simpl. rewrite Ht. simpl. by rewrite Hh.
Qed.

Lemma tensor4_wf_lookup (x : tensor4) (i t k : nat) sample token head :
  tensor4_wf x ->
  x_data x !! i = Some sample -> sample !! t = Some token ->
  token !! k = Some head ->
  length sample = x_L x /\ length token = x_n x /\ length head = x_d x.
Proof.
  intros [_ Hall] Hs Ht Hh.
  eapply Forall_lookup_1 in Hall as [Hl Hall]; [|exact Hs].
  eapply Forall_lookup_1 in Hall as [Hn Hall]; [|exact Ht].
  eapply Forall_lookup_1 in Hall; [|exact Hh]. done.
Qed.

(** The rotation of one coordinate pair of one token by [rope_apply], for
    a table of arbitrary 2x2 blocks. *)
Lemma rope_apply_token (x : tensor4) (grid_sizes : list (Z * Z * Z))
    (freqs : table) (y : tensor4) (i : nat) (f h w : Z)
    (ft ht wt k j : nat) (re im : R) :
  tensor4_wf x -> table_wf freqs ->
  rope_apply x grid_sizes freqs = Ok y ->
  grid_sizes !! i = Some (f, h, w) ->
  (Z.of_nat ft < f)%Z -> (Z.of_nat ht < h)%Z -> (Z.of_nat wt < w)%Z ->
  let t := ((ft * Z.to_nat h + ht) * Z.to_nat w + wt)%nat in
  x_at x i t k (2 * j) = Some re ->
  x_at x i t k (2 * j + 1) = Some im ->
  exists band_T band_H band_W rT rH rW m,
    split_bands freqs (x_d x / 2) = Ok (band_T, band_H, band_W) /\
    band_T !! ft = Some rT /\ band_H !! ht = Some rH /\
    band_W !! wt = Some rW /\
    grid_freqs band_T band_H band_W (Z.to_nat f) (Z.to_nat h) (Z.to_nat w)
      !! t = Some (rT ++ rH ++ rW) /\
    length (rT ++ rH ++ rW) = (x_d x / 2)%nat /\
    (rT ++ rH ++ rW) !! j = Some m /\
    x_at y i t k (2 * j) = Some (re * m00 m + im * m01 m)%R /\
    x_at y i t k (2 * j + 1) = Some (re * m10 m + im * m11 m)%R.
Proof.
  intros Hwf Htab Hok Hg Hft Hht Hwt t Hre Him.
  destruct (rope_apply_ok _ _ _ _ _ _ _ _ Hok Hg)
    as (bt & bh & bw & x_i & Hsplit & Hsample & Hy).
  apply rope_apply_sample_ok in Hsample
    as (Hlen & Hf & Hh & Hw & _ & _ & _ & Hev & Hc & sample & Hs & ->).
  destruct (split_bands_ok _ _ _ _ _ Htab Hsplit)
    as (_ & Hlt & Hlh & Hlw & (nt & nh & nw & _ & Hsum & HnT & HnH & HnW) & _).
  apply x_at_inv in Hre as (sample' & token & head & Hs' & Htok & Hhead & Hre).
  rewrite Hs in Hs'. injection Hs' as <-.
  apply x_at_inv in Him as (sample' & token' & head' & Hs' & Htok' & Hhead' & Him).
  rewrite Hs in Hs'. injection Hs' as <-.
  rewrite Htok in Htok'. injection Htok' as <-.
  rewrite Hhead in Hhead'. injection Hhead' as <-.
  destruct (tensor4_wf_lookup _ _ _ _ _ _ _ Hwf Hs Htok Hhead)
    as (HL & Hn & Hd).
  destruct (lookup_lt_is_Some_2 bt ft) as [rT HT]; [lia|].
  destruct (lookup_lt_is_Some_2 bh ht) as [rH HH]; [lia|].
  destruct (lookup_lt_is_Some_2 bw wt) as [rW HW]; [lia|].
  eapply Forall_lookup_1 in HnT; [|exact HT].
  eapply Forall_lookup_1 in HnH; [|exact HH].
  eapply Forall_lookup_1 in HnW; [|exact HW]. simpl in HnT, HnH, HnW.
  assert (Hlenv : length (rT ++ rH ++ rW) = (x_d x / 2)%nat)
    by (rewrite !length_app; lia).
  assert (Hj : (j < x_d x / 2)%nat).
  { pose proof (lookup_lt_Some _ _ _ Him) as Hlt2. rewrite Hd in Hlt2.
    pose proof (Nat.div_mod_eq (x_d x) 2). lia. }
  destruct (lookup_lt_is_Some_2 (rT ++ rH ++ rW) j) as [m Hm]; [lia|].
  assert (Hgf : grid_freqs bt bh bw (Z.to_nat f) (Z.to_nat h) (Z.to_nat w) !! t
                = Some (rT ++ rH ++ rW)).
  { apply grid_freqs_lookup; try done; lia. }
  exists bt, bh, bw, rT, rH, rW, m. do 7 (split; [done|]).
  assert (Hyt : (zip_with rotate_token
                   (grid_freqs bt bh bw (Z.to_nat f) (Z.to_nat h) (Z.to_nat w))
                   (take (x_L x) sample) ++ drop (x_L x) sample) !! t
                = Some (rotate_token (rT ++ rH ++ rW) token)).
  { rewrite lookup_app_l.
    - rewrite lookup_zip_with, Hgf. simpl.
      rewrite take_ge by lia. by rewrite Htok.
    - apply lookup_lt_Some in Htok.
      rewrite length_zip_with, length_take, grid_freqs_length by lia.
      apply lookup_lt_Some in Hgf.
      rewrite grid_freqs_length in Hgf by lia. lia. }
  destruct (rotate_head_lookup (rT ++ rH ++ rW) head j m re im Hm)
    as [Hyre Hyim]; [by apply pairs_lookup|].
  assert (Hyh : rotate_token (rT ++ rH ++ rW) token !! k
                = Some (rotate_head (rT ++ rH ++ rW) head)).
  { unfold rotate_token. by rewrite list_lookup_fmap, Hhead. }
  by rewrite !(x_at_intro y i t k _ _ _ _ Hy Hyt Hyh).
Qed.

Lemma split_bands_Forall (P : mat2 -> Prop) (freqs : table) (c : nat)
    bt bh bw :
  Forall (Forall P) (t_data freqs) ->
  split_bands freqs c = Ok (bt, bh, bw) ->
  Forall (Forall P) bt /\ Forall (Forall P) bh /\ Forall (Forall P) bw.
Proof.
  intros Hall. unfold split_bands.
  destruct (split_sizes (Z.of_nat c)) as [[ct ch] cw].
  intros H. ensure_inv H. injection H as <- <- <-.
  repeat split; apply Forall_fmap; (eapply Forall_impl; [exact Hall|]);
    simpl; intros row Hrow;
    repeat (apply Forall_take || apply Forall_drop); done.
Qed.

(** C2: in a call of [rope_apply] that returns, the token at grid position
    [(ft, ht, wt)] of a sample, which is token
    [(ft * h + ht) * w + wt], is rotated with the vector
    [band_T[ft] ++ band_H[ht] ++ band_W[wt]] of [c] entries, and its pair
    [(re, im)] number [j] becomes
    [(re * cos_j - im * sin_j, im * cos_j + re * sin_j)] for the entry [j]
    of that vector. *)
Theorem rope_apply_rotates (x : tensor4) (grid_sizes : list (Z * Z * Z))
    (freqs : table) (y : tensor4) (i : nat) (f h w : Z)
    (ft ht wt k j : nat) (re im : R) :
  tensor4_wf x -> table_wf freqs -> rotation_table freqs ->
  rope_apply x grid_sizes freqs = Ok y ->
  grid_sizes !! i = Some (f, h, w) ->
  (Z.of_nat ft < f)%Z -> (Z.of_nat ht < h)%Z -> (Z.of_nat wt < w)%Z ->
  let t := ((ft * Z.to_nat h + ht) * Z.to_nat w + wt)%nat in
  x_at x i t k (2 * j) = Some re ->
  x_at x i t k (2 * j + 1) = Some im ->
  exists band_T band_H band_W rT rH rW a,
    split_bands freqs (x_d x / 2) = Ok (band_T, band_H, band_W) /\
    band_T !! ft = Some rT /\ band_H !! ht = Some rH /\
    band_W !! wt = Some rW /\
    grid_freqs band_T band_H band_W (Z.to_nat f) (Z.to_nat h) (Z.to_nat w)
      !! t = Some (rT ++ rH ++ rW) /\
    length (rT ++ rH ++ rW) = (x_d x / 2)%nat /\
    (rT ++ rH ++ rW) !! j = Some (rot_block a) /\
    x_at y i t k (2 * j) = Some (re * cos a - im * sin a)%R /\
    x_at y i t k (2 * j + 1) = Some (im * cos a + re * sin a)%R.
Proof.
  intros Hwf Htab Hrot Hok Hg Hft Hht Hwt t Hre Him.
  destruct (rope_apply_token x grid_sizes freqs y i f h w ft ht wt k j re im)
    as (bt & bh & bw & rT & rH & rW & m & Hs & HT & HH & HW & Hgf & Hlen
        & Hm & Hyre & Hyim); try done.
  destruct (split_bands_Forall _ _ _ _ _ _ Hrot Hs) as (HPt & HPh & HPw).
  eapply Forall_lookup_1 in HPt; [|exact HT].
  eapply Forall_lookup_1 in HPh; [|exact HH].
  eapply Forall_lookup_1 in HPw; [|exact HW].
  assert (Hm' : exists a, m = rot_block a).
  { apply (Forall_lookup_1 (fun m => exists a, m = rot_block a)
             (rT ++ rH ++ rW) j m); [|exact Hm].
    by repeat apply Forall_app_2. }
  destruct Hm' as [a ->].
  exists bt, bh, bw, rT, rH, rW, a. do 7 (split; [done|]).
  subst t. rewrite Hyre, Hyim. simpl.
  split; f_equal; lra.
Qed.

Lemma two_tokens_wf : tensor4_wf two_tokens.
Proof. split; [done|]. repeat constructor. Qed.

Lemma two_rows_wf : table_wf two_rows.
Proof. split; [done|]. repeat constructor. Qed.

Lemma two_rows_rotation : rotation_table two_rows.
Proof. repeat constructor; eexists; reflexivity. Qed.

Lemma rope_apply_rotates_witness :
  exists y a,
    rope_apply two_tokens [(2, 1, 1)%Z] two_rows = Ok y /\
    x_at y 0 1 0 0 = Some (0 * cos a - 1 * sin a)%R /\
    x_at y 0 1 0 1 = Some (1 * cos a + 0 * sin a)%R.
Proof.
  assert (Hy : exists y, rope_apply two_tokens [(2, 1, 1)%Z] two_rows = Ok y)
    by (eexists; reflexivity).
  destruct Hy as [y Hy]. exists y.
  destruct (rope_apply_rotates two_tokens [(2, 1, 1)%Z] two_rows y
              0 2 1 1 1 0 0 0 0 0 1
              two_tokens_wf two_rows_wf two_rows_rotation Hy)
    as (bt & bh & bw & rT & rH & rW & a & _ & _ & _ & _ & _ & _ & _
        & Hre & Him);
    [reflexivity | lia | lia | lia | reflexivity | reflexivity |].
  exists a. split; [exact Hy|]. split; [exact Hre | exact Him].
Defined.

(** C3 fails as stated: a sample of two tokens whose grid has one real
    token, so that one token is padding, makes the call raise. *)
Lemma rope_apply_padding_rejected :
  tensor4_wf two_tokens /\ table_wf two_rows /\
  (1 * 1 * 1 < Z.of_nat (x_L two_tokens))%Z /\
  rope_apply two_tokens [(1, 1, 1)%Z] two_rows = Err RuntimeError.
Proof.
  split; [apply two_tokens_wf|]. split; [apply two_rows_wf|].
  split; [vm_compute; reflexivity | reflexivity].
Qed.

(** C3, amended: a sample whose real token count [f * h * w] is less than
    the padded length makes the call raise; a call that returns has
    [f * h * w] equal to the padded length for every sample, so that the
    tail [x[i, seq_len:]] it appends is empty and the sample of the
    output consists of the rotated tokens only. *)
Theorem rope_apply_needs_full_length (x : tensor4)
    (grid_sizes : list (Z * Z * Z)) (freqs : table) (i : nat) (f h w : Z) :
  grid_sizes !! i = Some (f, h, w) ->
  ((f * h * w < Z.of_nat (x_L x))%Z ->
   exists e, rope_apply x grid_sizes freqs = Err e) /\
  (forall y, tensor4_wf x -> rope_apply x grid_sizes freqs = Ok y ->
     (f * h * w = Z.of_nat (x_L x))%Z /\
     exists band_T band_H band_W sample,
       split_bands freqs (x_d x / 2) = Ok (band_T, band_H, band_W) /\
       x_data x !! i = Some sample /\
       drop (Z.to_nat (f * h * w)) sample = [] /\
       x_data y !! i =
         Some (zip_with rotate_token
                 (grid_freqs band_T band_H band_W
                    (Z.to_nat f) (Z.to_nat h) (Z.to_nat w))
                 sample)).
Proof.
  intros Hg. split.
  - intros Hlt. unfold rope_apply.
    destruct (split_bands freqs (x_d x / 2)) as [bands|e]; [|by eexists].
    cbn [bind].
    destruct (mapM_err_lookup
                (fun ig => rope_apply_sample x bands (t_rows freqs) ig.1 ig.2)
                (enumerate grid_sizes) i (i, (f, h, w)) RuntimeError)
      as [e' ->]; [by apply enumerate_lookup | | by eexists].
    apply rope_apply_sample_length. lia.
  - intros y Hwf Hok.
    destruct (rope_apply_ok _ _ _ _ _ _ _ _ Hok Hg)
      as (bt & bh & bw & x_i & Hsplit & Hsample & Hy).
    apply rope_apply_sample_ok in Hsample
      as (Hlen & _ & _ & _ & _ & _ & _ & _ & _ & sample & Hs & ->).
    split; [done|]. exists bt, bh, bw, sample. do 2 (split; [done|]).
    assert (Hl : length sample = x_L x).
    { destruct Hwf as [_ Hall].
      eapply Forall_lookup_1 in Hall as [Hl _]; [|exact Hs]. done. }
    rewrite Hlen, Nat2Z.id. split; [apply drop_ge; lia|].
    rewrite Hy. by rewrite drop_ge, app_nil_r, take_ge by lia.
Qed.

Lemma rope_apply_needs_full_length_witness :
  (exists e, rope_apply two_tokens [(1, 1, 1)%Z] two_rows = Err e) /\
  (2 * 1 * 1 = Z.of_nat (x_L two_tokens))%Z.
Proof.
  split.
  - apply (rope_apply_needs_full_length two_tokens [(1, 1, 1)%Z] two_rows
             0 1 1 1); [reflexivity | vm_compute; reflexivity].
  - assert (Hy : exists y, rope_apply two_tokens [(2, 1, 1)%Z] two_rows = Ok y)
      by (eexists; reflexivity).
    destruct Hy as [y Hy].
    apply (rope_apply_needs_full_length two_tokens [(2, 1, 1)%Z] two_rows
             0 2 1 1 eq_refl) with (y := y);
      [apply two_tokens_wf | exact Hy].
Defined.

(** ** The kernel and its wrapper *)

Section KernelFacts.
Variables sin_approx cos_approx : R -> R.
Variable stray_pos : nat -> Z.

Abbreviation jit := (rope_apply_jit sin_approx cos_approx stray_pos).

(** C6: when [x] is not 3-dimensional or not contiguous, or [pos] is
    not a contiguous 1-dimensional tensor of length [N], or [freqs] is
    not a contiguous 1-dimensional tensor of length [D / 2], the
    wrapper raises [ValueError] and the buffer of [x] is as it was.
    The length [D / 2] is exact: [freqs] has to be of some length [n]
    with [2 * n = D], so that for an odd [D] every [freqs] is
    rejected. *)
Theorem rope_apply_jit_rejects (x : ftensor) (pos : itensor)
    (freqs : ftensor) (approx_trigo : bool) :
  (length (f_shape x) <> 3%nat \/
   f_contiguous x = false \/
   exists N H D : nat,
     f_shape x = [N; H; D] /\
     (i_shape pos <> [N] \/ i_contiguous pos = false \/
      ~ (exists n : nat, f_shape freqs = [n] /\ (2 * n = D)%nat) \/
      f_contiguous freqs = false)) ->
  jit x pos freqs approx_trigo = (Err ValueError, f_data x).
Proof.
  intros Hbad. unfold rope_apply_jit, rope_apply_jit_checks.
  destruct (f_shape x) as [|N [|H [|D [|? ?]]]] eqn:Hshape;
    try reflexivity; cbn [length Nat.eqb ensure bind].
  destruct (f_contiguous x) eqn:Hcx; [|reflexivity].
  cbn [ensure bind].
  destruct Hbad as [Hbad | [Hbad | (N' & H' & D' & Heq & Hbad)]];
    [done | done |].
  injection Heq as <- <- <-.
  destruct (i_shape pos) as [|n [|? ?]] eqn:Hpos; try reflexivity.
  cbn [length hd Nat.eqb negb orb].
  destruct (Nat.eqb_spec n N) as [->|Hn]; [|reflexivity].
  cbn [negb ensure bind].
  destruct (i_contiguous pos) eqn:Hcp; [|reflexivity].
  cbn [ensure bind].
  destruct (f_shape freqs) as [|m [|? ?]] eqn:Hfreqs; try reflexivity.
  cbn [length hd Nat.eqb negb orb].
  destruct (Nat.eqb_spec (m * 2) D) as [Hm|Hm]; [|reflexivity].
  cbn [negb ensure bind].
  destruct (f_contiguous freqs) eqn:Hcf; [|reflexivity].
  exfalso. destruct Hbad as [Hbad | [Hbad | [Hbad | Hbad]]]; try done.
  apply Hbad. exists m. split; [done | lia].
Qed.

(** *** Zero positions *)

Section ZeroPositions.
Variables (pos : list Z) (freqs : list R) (n_heads : nat).
Variables (HEAD_DIM HEAD_DIM2 HEADS_PER_ELEM : nat).
Variables (HEAD_GROUP_SIZE HEADS_PER_BLOCK : nat).

(** Every head that is not masked off reads position 0. *)
Hypothesis pos_zero :
  forall head, (head < n_heads)%nat ->
    load_pos stray_pos pos (head / HEADS_PER_ELEM) = 0%Z.

Abbreviation lane0 :=
  (kernel_lane sin_approx cos_approx stray_pos pos freqs n_heads
     HEAD_DIM HEADS_PER_ELEM false).

Lemma kernel_lane_zero (x : list R) (head_idx g j : nat) :
  lane_mask (lane0 x head_idx g j) = true ->
  re_out (lane0 x head_idx g j)
    = default 0%R (x !! re_ofs (lane0 x head_idx g j)) /\
  im_out (lane0 x head_idx g j)
    = default 0%R (x !! im_ofs (lane0 x head_idx g j)).
Proof.
  unfold kernel_lane. cbn [lane_mask re_out im_out re_ofs im_ofs].
  intros Hmask. rewrite Hmask. cbn [load].
  apply andb_true_iff in Hmask as [Hhead _].
  apply Nat.ltb_lt in Hhead. rewrite (pos_zero _ Hhead).
  rewrite Rmult_0_l, sin_0, cos_0. split; lra.
Qed.

(** Storing back what is there changes nothing. *)
Lemma foldl_store_same (ofs : lane -> nat) (val : lane -> R)
    (lanes : list lane) (x : list R) :
  Forall (fun o => lane_mask o = true ->
                   val o = default 0%R (x !! ofs o)) lanes ->
  foldl (fun mem o => store mem (ofs o) (val o) (lane_mask o)) x lanes
    = x.
Proof.
  induction 1 as [|o lanes Ho _ IH]; [done|]. cbn [foldl].
  replace (store x (ofs o) (val o) (lane_mask o)) with x; [done|].
  unfold store. destruct (lane_mask o); [|done].
  rewrite Ho by done.
  destruct (x !! ofs o) as [v|] eqn:Hv; simpl.
  - symmetry. by apply list_insert_id.
  - symmetry. apply list_insert_ge. by apply lookup_ge_None.
Qed.

Lemma group_step_zero (x : list R) (head_idx : nat) :
  group_step sin_approx cos_approx stray_pos pos freqs n_heads
    HEAD_DIM HEAD_DIM2 HEADS_PER_ELEM HEAD_GROUP_SIZE false x head_idx
  = x.
Proof.
  unfold group_step.
  assert (Hlanes : Forall (fun o =>
             lane_mask o = true ->
             re_out o = default 0%R (x !! re_ofs o) /\
             im_out o = default 0%R (x !! im_ofs o))
           (g ← seq 0 HEAD_GROUP_SIZE;
            j ← seq 0 HEAD_DIM2; [lane0 x head_idx g j])).
  { apply Forall_forall. intros o Ho.
    apply list_elem_of_bind in Ho as (g & Ho & _).
    apply list_elem_of_bind in Ho as (j & Ho & _).
    apply list_elem_of_singleton in Ho as ->.
    apply kernel_lane_zero. }
  rewrite (foldl_store_same re_ofs re_out).
  - apply (foldl_store_same im_ofs im_out).
    eapply Forall_impl; [exact Hlanes|]. intros o Ho Hm.
    by apply Ho.
  - eapply Forall_impl; [exact Hlanes|]. intros o Ho Hm.
    by apply Ho.
Qed.

Lemma launch_zero (n_blocks : nat) (x : list R) :
  (launch sin_approx cos_approx stray_pos pos freqs n_heads
     HEAD_DIM HEAD_DIM2 HEADS_PER_ELEM HEAD_GROUP_SIZE HEADS_PER_BLOCK
     false n_blocks x).2 = x.
Proof.
  unfold launch. destruct (_ || _); [done|]. cbn [snd].
  induction (seq 0 n_blocks) as [|b bs IH]; [done|]. cbn [foldl].
  replace (rope_kernel _ _ _ _ _ _ _ _ _ _ _ _ _ _) with x; [done|].
  unfold rope_kernel.
  induction (range_step _ _ _) as [|hi his IHh]; [done|]. cbn [foldl].
  by rewrite group_step_zero.
Qed.
End ZeroPositions.

Lemma rope_apply_jit_checks_ok (x : ftensor) (pos : itensor)
    (freqs : ftensor) (N H D : nat) :
  rope_apply_jit_checks x pos freqs = Ok (N, H, D) ->
  f_shape x = [N; H; D] /\ f_contiguous x = true /\
  i_shape pos = [N] /\ i_contiguous pos = true /\
  f_shape freqs = [(D / 2)%nat] /\ (D = 2 * (D / 2))%nat /\
  f_contiguous freqs = true.
Proof.
  unfold rope_apply_jit_checks. intros H0.
  ensure_inv H0. ensure_inv H0.
  destruct (f_shape x) as [|N' [|H' [|D' [|? ?]]]]; try done.
  ensure_inv H0. ensure_inv H0. ensure_inv H0. ensure_inv H0.
  injection H0 as -> -> ->.
  apply negb_true_iff, orb_false_iff in Hcond1 as [Hp1 Hp2].
  apply negb_false_iff, Nat.eqb_eq in Hp1, Hp2.
  apply negb_true_iff, orb_false_iff in Hcond3 as [Hf1 Hf2].
  apply negb_false_iff, Nat.eqb_eq in Hf1, Hf2.
  destruct (i_shape pos) as [|n [|? ?]]; try done.
  destruct (f_shape freqs) as [|m [|? ?]]; try done.
  simpl in Hp2, Hf2. subst n D.
  rewrite Nat.div_mul by lia.
  repeat split; try done. lia.
Qed.

(** C8: when every entry of [pos] is 0 and the trigonometric functions
    are the exact ones, the call leaves the buffer of [x] as it was. *)
Theorem rope_apply_jit_zero_pos (x : ftensor) (pos : itensor)
    (freqs : ftensor) :
  itensor_wf pos ->
  Forall (fun p => p = 0%Z) (i_data pos) ->
  (jit x pos freqs false).2 = f_data x.
Proof.
  intros Hwf Hzero. unfold rope_apply_jit.
  destruct (rope_apply_jit_checks x pos freqs) as [[[N H] D]|e] eqn:Hchk;
    [|done].
  apply rope_apply_jit_checks_ok in Hchk as (_ & _ & Hpos & _).
  destruct (if (N * H <? 2048)%nat then _ else _) as [[HPB HGS]|e];
    [|done].
  apply launch_zero. intros head Hhead.
  unfold itensor_wf in Hwf. rewrite Hpos in Hwf. simpl in Hwf.
  assert (Hlt : (head / H < length (i_data pos))%nat).
  { rewrite Hwf, Nat.mul_1_r.
    apply Nat.Div0.div_lt_upper_bound. lia. }
  unfold load_pos.
  destruct (lookup_lt_is_Some_2 _ _ Hlt) as [p Hp]. rewrite Hp. simpl.
  by eapply (Forall_lookup_1 _ _ _ _ Hzero) in Hp.
Qed.

(** *** The reference description: rotations of pairs *)

Lemma rot_mem_length (ang : nat -> R) (x : list R) :
  length (rot_mem ang x) = length x.
Proof. unfold rot_mem. apply length_imap. Qed.

Lemma rot_mem_lookup (ang : nat -> R) (x : list R) (o : nat) :
  rot_mem ang x !! o =
  (fun v =>
     let a := ang (o / 2)%nat in
     if Nat.even o
     then (v * cos a - default 0 (x !! (o + 1)%nat) * sin a)%R
     else (v * cos a + default 0 (x !! (o - 1)%nat) * sin a)%R)
    <$> x !! o.
Proof. unfold rot_mem. apply list_lookup_imap. Qed.

Lemma half_even (k : nat) : (2 * k / 2 = k)%nat.
Proof. rewrite Nat.mul_comm. apply Nat.div_mul. lia. Qed.

Lemma half_odd (k : nat) : ((2 * k + 1) / 2 = k)%nat.
Proof.
  rewrite (Nat.mul_comm 2 k), Nat.div_add_l by lia.
  change (1 / 2)%nat with 0%nat. lia.
Qed.

Lemma even_double (k : nat) : Nat.even (2 * k) = true.
Proof. apply Nat.even_spec. by exists k. Qed.

Lemma even_double_succ (k : nat) : Nat.even (2 * k + 1) = false.
Proof. by rewrite Nat.even_add, even_double. Qed.

Lemma rot_mem_lookup_re (ang : nat -> R) (x : list R) (k : nat) (v : R) :
  x !! (2 * k)%nat = Some v ->
  rot_mem ang x !! (2 * k)%nat
    = Some (v * cos (ang k)
            - default 0 (x !! (2 * k + 1)%nat) * sin (ang k))%R.
Proof.
  intros Hv. rewrite rot_mem_lookup, Hv. cbv zeta.
  by rewrite even_double, half_even.
Qed.

Lemma rot_mem_lookup_im (ang : nat -> R) (x : list R) (k : nat) (v : R) :
  x !! (2 * k + 1)%nat = Some v ->
  rot_mem ang x !! (2 * k + 1)%nat
    = Some (v * cos (ang k)
            + default 0 (x !! (2 * k)%nat) * sin (ang k))%R.
Proof.
  intros Hv. rewrite rot_mem_lookup, Hv. cbv zeta.
  rewrite even_double_succ, half_odd.
  by replace (2 * k + 1 - 1)%nat with (2 * k)%nat by lia.
Qed.

Lemma rot_mem_lookup_None (ang : nat -> R) (x : list R) (o : nat) :
  x !! o = None -> rot_mem ang x !! o = None.
Proof. intros Hv. by rewrite rot_mem_lookup, Hv. Qed.

(** Every offset is the real or the imaginary part of a pair. *)
Lemma offset_cases (o : nat) :
  (exists k, o = (2 * k)%nat) \/ (exists k, o = (2 * k + 1)%nat).
Proof. destruct (Nat.Even_or_Odd o) as [[k ->]|[k ->]]; eauto. Qed.

Lemma rot_mem_ext (a1 a2 : nat -> R) (x : list R) :
  (forall k, a1 k = a2 k) -> rot_mem a1 x = rot_mem a2 x.
Proof.
  intros Hext. apply list_eq. intros o. rewrite !rot_mem_lookup.
  cbv zeta. by rewrite Hext.
Qed.

Lemma rot_mem_zero (x : list R) : rot_mem (fun _ => 0%R) x = x.
Proof.
  apply list_eq. intros o. rewrite rot_mem_lookup. cbv zeta.
  rewrite sin_0, cos_0. destruct (x !! o) as [v|]; [|done].
  cbn [fmap option_fmap option_map].
  f_equal. destruct (Nat.even o); lra.
Qed.

(** In a buffer of even length a pair is inside as a whole. *)
Lemma pair_inside (x : list R) (k : nat) :
  Nat.even (length x) = true ->
  (2 * k < length x)%nat <-> (2 * k + 1 < length x)%nat.
Proof.
  intros Hlen. apply Nat.even_spec in Hlen as [n Hn]. lia.
Qed.

(** Two rotations in a row add their angles. *)
Lemma rot_mem_add (a1 a2 : nat -> R) (x : list R) :
  Nat.even (length x) = true ->
  rot_mem a2 (rot_mem a1 x) = rot_mem (fun k => (a1 k + a2 k)%R) x.
Proof.
  intros Hlen. apply list_eq. intros o.
  destruct (x !! o) as [v|] eqn:Hv.
  2:{ rewrite !rot_mem_lookup_None; [done..|].
      by apply rot_mem_lookup_None. }
  pose proof (lookup_lt_Some _ _ _ Hv) as Ho.
  destruct (offset_cases o) as [[k ->]|[k ->]].
  - destruct (lookup_lt_is_Some_2 x (2 * k + 1)) as [u Hu];
      [by apply pair_inside|].
    rewrite (rot_mem_lookup_re _ x k v Hv), Hu.
    rewrite (rot_mem_lookup_re a2 (rot_mem a1 x) k _
               (rot_mem_lookup_re a1 x k v Hv)).
    rewrite (rot_mem_lookup_im a1 x k u Hu), Hu, Hv.
    cbv [default from_option Datatypes.id]. apply (f_equal Some).
    rewrite cos_plus, sin_plus. ring.
  - destruct (lookup_lt_is_Some_2 x (2 * k)) as [u Hu]; [lia|].
    rewrite (rot_mem_lookup_im _ x k v Hv), Hu.
    rewrite (rot_mem_lookup_im a2 (rot_mem a1 x) k _
               (rot_mem_lookup_im a1 x k v Hv)).
    rewrite (rot_mem_lookup_re a1 x k u Hu), Hu, Hv.
    cbv [default from_option Datatypes.id]. apply (f_equal Some).
    rewrite cos_plus, sin_plus. ring.
Qed.

(** *** A round of masked stores *)

Section Stores.
Variables (ofs : lane -> nat) (val : lane -> R).

Abbreviation stores :=
  (foldl (fun mem o => store mem (ofs o) (val o) (lane_mask o))).

Lemma stores_length (lanes : list lane) (x : list R) :
  length (stores x lanes) = length x.
Proof.
  revert x. induction lanes as [|o lanes IH]; intros x; [done|].
  cbn [foldl]. rewrite IH. unfold store.
  destruct (lane_mask o); [apply length_insert | done].
Qed.

(** An offset that no lane writes keeps its value. *)
Lemma stores_untouched (lanes : list lane) (x : list R) (i : nat) :
  (forall o, o ∈ lanes -> lane_mask o = true -> ofs o <> i) ->
  stores x lanes !! i = x !! i.
Proof.
  revert x. induction lanes as [|o lanes IH]; intros x Hno; [done|].
  cbn [foldl]. rewrite IH.
  - unfold store. destruct (lane_mask o) eqn:Hm; [|done].
    apply list_lookup_insert_ne. apply Hno; [left | done].
  - intros o' Ho'. apply Hno. by right.
Qed.

(** An offset that some lane writes, all its writers agreeing on the
    value, holds that value. *)
Lemma stores_written (lanes : list lane) (x : list R) (i : nat) (v : R) :
  (forall o, o ∈ lanes -> lane_mask o = true -> ofs o = i -> val o = v) ->
  (exists o, o ∈ lanes /\ lane_mask o = true /\ ofs o = i) ->
  (i < length x)%nat ->
  stores x lanes !! i = Some v.
Proof.
  induction lanes as [|o lanes IH] using rev_ind;
    intros Hval (o' & Ho' & Hm' & Hi') Hlen.
  { by apply elem_of_nil in Ho'. }
  rewrite foldl_snoc. unfold store.
  destruct (lane_mask o) eqn:Hm.
  - destruct (decide (ofs o = i)) as [Heq|Hne].
    + rewrite Heq, list_lookup_insert_eq by (by rewrite stores_length).
      f_equal. apply Hval; [|done..]. apply elem_of_app. right. by left.
    + rewrite list_lookup_insert_ne by done.
      apply IH; [| |done].
      * intros o0 Ho0. apply Hval, elem_of_app. by left.
      * apply elem_of_app in Ho' as [Ho'|Ho'].
        -- by exists o'.
        -- apply list_elem_of_singleton in Ho' as ->. done.
  - apply IH; [| |done].
    + intros o0 Ho0. apply Hval, elem_of_app. by left.
    + apply elem_of_app in Ho' as [Ho'|Ho'].
      * by exists o'.
      * apply list_elem_of_singleton in Ho' as ->. congruence.
Qed.
End Stores.

(** *** One head group is a rotation of pairs *)

Section GroupRotation.
Variables (pos : list Z) (freqs : list R) (n_heads half : nat).
Variables (HEAD_DIM2 HEADS_PER_ELEM HEAD_GROUP_SIZE : nat).

(** The head dimension is even, and the power of two above it covers
    all its pairs. *)
Hypothesis half_pos : (0 < half)%nat.
Hypothesis half_le : (half <= HEAD_DIM2)%nat.

Abbreviation klane :=
  (kernel_lane sin_approx cos_approx stray_pos pos freqs n_heads
     (2 * half) HEADS_PER_ELEM false).
Abbreviation gangle :=
  (group_angle stray_pos pos freqs n_heads half HEADS_PER_ELEM
     HEAD_GROUP_SIZE).
Abbreviation gstep :=
  (group_step sin_approx cos_approx stray_pos pos freqs n_heads
     (2 * half) HEAD_DIM2 HEADS_PER_ELEM HEAD_GROUP_SIZE false).

Abbreviation in_grp := (in_group n_heads half HEAD_GROUP_SIZE).

Lemma pair_of_lane (head g j : nat) :
  (j < half)%nat ->
  let k := (head * half + j)%nat in
  (k / half = head)%nat /\ (k mod half = j)%nat /\
  (head * (2 * half) + 2 * j = 2 * k)%nat.
Proof.
  intros Hj k. subst k. repeat split.
  - rewrite Nat.div_add_l, Nat.div_small by lia. lia.
  - rewrite Nat.add_comm, Nat.Div0.mod_add. by apply Nat.mod_small.
  - lia.
Qed.

(** A lane that is not masked off, seen from the pair it works on. *)
Lemma klane_masked (x : list R) (head_idx g j : nat) :
  (g < HEAD_GROUP_SIZE)%nat ->
  lane_mask (klane x head_idx g j) = true ->
  exists k,
    in_grp head_idx k = true /\
    re_ofs (klane x head_idx g j) = (2 * k)%nat /\
    im_ofs (klane x head_idx g j) = (2 * k + 1)%nat /\
    re_out (klane x head_idx g j)
      = (default 0 (x !! (2 * k)%nat) * cos (gangle head_idx k)
         - default 0 (x !! (2 * k + 1)%nat) * sin (gangle head_idx k))%R /\
    im_out (klane x head_idx g j)
      = (default 0 (x !! (2 * k + 1)%nat) * cos (gangle head_idx k)
         + default 0 (x !! (2 * k)%nat) * sin (gangle head_idx k))%R.
Proof.
  intros Hg. unfold kernel_lane.
  cbn [lane_mask re_ofs im_ofs re_out im_out].
  intros Hmask. rewrite Hmask.
  apply andb_true_iff in Hmask as [Hhead Hj].
  apply Nat.ltb_lt in Hhead, Hj.
  assert (Hj' : (j < half)%nat) by lia.
  destruct (pair_of_lane (head_idx + g) g j Hj') as (Hdiv & Hmod & Hofs).
  exists ((head_idx + g) * half + j)%nat.
  assert (Hin : in_grp head_idx ((head_idx + g) * half + j) = true).
  { unfold in_group. rewrite Hdiv.
    repeat (apply andb_true_iff; split);
      [apply Nat.leb_le | apply Nat.ltb_lt | apply Nat.ltb_lt]; lia. }
  assert (Hang : gangle head_idx ((head_idx + g) * half + j)
                 = (IZR (load_pos stray_pos pos
                           ((head_idx + g) / HEADS_PER_ELEM))
                    * load freqs j true)%R).
  { unfold group_angle. by rewrite Hin, Hdiv, Hmod. }
  rewrite Hang, Hofs.
  replace (2 * j <? 2 * half)%nat with true
    by (symmetry; apply Nat.ltb_lt; lia).
  split; [done|]. split; [done|]. split; [done|].
  unfold load. done.
Qed.

(** A pair of the group has a lane that is not masked off. *)
Lemma in_group_lane (x : list R) (head_idx k : nat) :
  in_grp head_idx k = true ->
  exists g j,
    (g < HEAD_GROUP_SIZE)%nat /\ (j < HEAD_DIM2)%nat /\
    lane_mask (klane x head_idx g j) = true /\
    re_ofs (klane x head_idx g j) = (2 * k)%nat /\
    im_ofs (klane x head_idx g j) = (2 * k + 1)%nat.
Proof.
  unfold in_group. intros Hin.
  apply andb_true_iff in Hin as [Hin Hn].
  apply andb_true_iff in Hin as [Hlo Hhi].
  apply Nat.leb_le in Hlo. apply Nat.ltb_lt in Hhi, Hn.
  pose proof (Nat.div_mod_eq k half) as Hk.
  pose proof (Nat.mod_upper_bound k half ltac:(lia)) as Hr.
  exists (k / half - head_idx)%nat, (k mod half)%nat.
  split; [lia|]. split; [lia|].
  unfold kernel_lane. cbn [lane_mask re_ofs im_ofs].
  replace (head_idx + (k / half - head_idx))%nat with (k / half)%nat
    by lia.
  split; [|split; lia].
  apply andb_true_iff. split; apply Nat.ltb_lt; lia.
Qed.

(** No lane is mask-free outside the group. *)
Lemma klane_offsets (x : list R) (head_idx : nat) (o : lane) :
  o ∈ (g ← seq 0 HEAD_GROUP_SIZE;
        j ← seq 0 HEAD_DIM2; [klane x head_idx g j]) ->
  lane_mask o = true ->
  exists k,
    in_grp head_idx k = true /\
    re_ofs o = (2 * k)%nat /\ im_ofs o = (2 * k + 1)%nat /\
    re_out o
      = (default 0 (x !! (2 * k)%nat) * cos (gangle head_idx k)
         - default 0 (x !! (2 * k + 1)%nat) * sin (gangle head_idx k))%R /\
    im_out o
      = (default 0 (x !! (2 * k + 1)%nat) * cos (gangle head_idx k)
         + default 0 (x !! (2 * k)%nat) * sin (gangle head_idx k))%R.
Proof.
  intros Ho Hm.
  apply list_elem_of_bind in Ho as (g & Ho & Hg).
  apply list_elem_of_bind in Ho as (j & Ho & Hj).
  apply list_elem_of_singleton in Ho as ->.
  apply elem_of_seq in Hg. apply klane_masked; [lia | done].
Qed.

Lemma in_group_offsets (x : list R) (head_idx k : nat) :
  in_grp head_idx k = true ->
  exists o,
    o ∈ (g ← seq 0 HEAD_GROUP_SIZE;
          j ← seq 0 HEAD_DIM2; [klane x head_idx g j]) /\
    lane_mask o = true /\
    re_ofs o = (2 * k)%nat /\ im_ofs o = (2 * k + 1)%nat.
Proof.
  intros Hin.
  destruct (in_group_lane x head_idx k Hin)
    as (g & j & Hg & Hj & Hm & Hre & Him).
  exists (klane x head_idx g j). split; [|done].
  apply list_elem_of_bind. exists g. split; [|apply elem_of_seq; lia].
  apply list_elem_of_bind. exists j. split; [|apply elem_of_seq; lia].
  by apply list_elem_of_singleton.
Qed.

Lemma gangle_outside (head_idx k : nat) :
  in_grp head_idx k = false -> gangle head_idx k = 0%R.
Proof.
  intros Hout. unfold group_angle. by rewrite Hout.
Qed.

(** The head group rotates the pairs of its heads, each by its
    position times the frequency of the pair, and leaves the rest of
    the buffer alone. *)
Lemma group_step_rot (x : list R) (head_idx : nat) :
  Nat.even (length x) = true ->
  gstep x head_idx = rot_mem (gangle head_idx) x.
Proof.
  intros Hlen. unfold group_step.
  set (lanes := g ← seq 0 HEAD_GROUP_SIZE;
                j ← seq 0 HEAD_DIM2; [klane x head_idx g j]).
  cbv zeta. apply list_eq. intros i.
  destruct (x !! i) as [v|] eqn:Hv.
  2:{ rewrite rot_mem_lookup_None by done.
      apply lookup_ge_None. rewrite !stores_length.
      by apply lookup_ge_None. }
  pose proof (lookup_lt_Some _ _ _ Hv) as Hi.
  destruct (offset_cases i) as [[k ->]|[k ->]].
  - (* a real part: written by the first round only *)
    rewrite (rot_mem_lookup_re _ x k v Hv).
    rewrite (stores_untouched im_ofs im_out).
    2:{ intros o Ho Hm.
        destruct (klane_offsets x head_idx o Ho Hm)
          as (k' & _ & _ & Him & _). lia. }
    destruct (in_grp head_idx k) eqn:Hin.
    + apply stores_written; [| |done].
      * intros o Ho Hm Hofs.
        destruct (klane_offsets x head_idx o Ho Hm)
          as (k' & _ & Hre & _ & Hval & _).
        assert (k' = k) by lia. subst k'. by rewrite Hval, Hv.
      * destruct (in_group_offsets x head_idx k Hin)
          as (o & Ho & Hm & Hre & _). by exists o.
    + rewrite stores_untouched.
      * rewrite Hv, gangle_outside, cos_0, sin_0 by done.
        apply (f_equal Some). ring.
      * intros o Ho Hm Hofs.
        destruct (klane_offsets x head_idx o Ho Hm)
          as (k' & Hin' & Hre & _).
        assert (k' = k) by lia. congruence.
  - (* an imaginary part: written by the second round only *)
    rewrite (rot_mem_lookup_im _ x k v Hv).
    destruct (in_grp head_idx k) eqn:Hin.
    + apply stores_written; [| |by rewrite stores_length].
      * intros o Ho Hm Hofs.
        destruct (klane_offsets x head_idx o Ho Hm)
          as (k' & _ & _ & Him & _ & Hval).
        assert (k' = k) by lia. subst k'. by rewrite Hval, Hv.
      * destruct (in_group_offsets x head_idx k Hin)
          as (o & Ho & Hm & _ & Him). by exists o.
    + rewrite !stores_untouched.
      * rewrite Hv, gangle_outside, cos_0, sin_0 by done.
        apply (f_equal Some). ring.
      * intros o Ho Hm.
        destruct (klane_offsets x head_idx o Ho Hm)
          as (k' & _ & Hre & _). lia.
      * intros o Ho Hm Hofs.
        destruct (klane_offsets x head_idx o Ho Hm)
          as (k' & Hin' & _ & Him & _).
        assert (k' = k) by lia. congruence.
Qed.

Lemma foldl_group_step_rot (heads : list nat) (x : list R) :
  Nat.even (length x) = true ->
  foldl gstep x heads
  = rot_mem (launch_angle stray_pos pos freqs n_heads half
               HEADS_PER_ELEM HEAD_GROUP_SIZE heads) x.
Proof.
  revert x. induction heads as [|hi heads IH]; intros x Hlen.
  - cbn [foldl]. symmetry. apply rot_mem_zero.
  - cbn [foldl]. rewrite IH, group_step_rot, rot_mem_add by
      (done || by rewrite group_step_rot, rot_mem_length).
    apply rot_mem_ext. intros k. reflexivity.
Qed.

Lemma foldl_blocks (HEADS_PER_BLOCK : nat) (blocks : list nat)
    (x : list R) :
  foldl (rope_kernel sin_approx cos_approx stray_pos pos freqs n_heads
           (2 * half) HEAD_DIM2 HEADS_PER_ELEM HEAD_GROUP_SIZE
           HEADS_PER_BLOCK false) x blocks
  = foldl gstep x
      (b ← blocks;
       range_step (b * HEADS_PER_BLOCK) ((b + 1) * HEADS_PER_BLOCK)
         HEAD_GROUP_SIZE).
Proof.
  revert x. induction blocks as [|b blocks IH]; intros x; [done|].
  cbn [foldl]. rewrite IH. unfold rope_kernel.
  change (mbind ?f (b :: blocks)) with (f b ++ mbind f blocks).
  by rewrite foldl_app.
Qed.

(** A launch that compiles rotates every pair by its launch angle. *)
Lemma launch_rot (HEADS_PER_BLOCK n_blocks : nat) (x : list R) :
  HEAD_DIM2 <> 0%nat -> HEAD_GROUP_SIZE <> 0%nat ->
  Nat.even (length x) = true ->
  launch sin_approx cos_approx stray_pos pos freqs n_heads
    (2 * half) HEAD_DIM2 HEADS_PER_ELEM HEAD_GROUP_SIZE HEADS_PER_BLOCK
    false n_blocks x
  = (Ok tt,
     rot_mem (launch_angle stray_pos pos freqs n_heads half
                HEADS_PER_ELEM HEAD_GROUP_SIZE
                (launch_heads HEAD_GROUP_SIZE HEADS_PER_BLOCK n_blocks))
       x).
Proof.
  intros Hd Hg Hlen. unfold launch.
  rewrite (proj2 (Nat.eqb_neq _ _) Hd), (proj2 (Nat.eqb_neq _ _) Hg).
  cbn [orb]. f_equal.
  rewrite foldl_blocks. by apply foldl_group_step_rot.
Qed.
End GroupRotation.

(** *** Positions add up *)

Lemma group_angle_add (pos1 pos2 : list Z) (freqs : list R)
    (n_heads half HEADS_PER_ELEM HEAD_GROUP_SIZE head_idx k : nat) :
  (forall head, (head < n_heads)%nat ->
     (head / HEADS_PER_ELEM < length pos1)%nat /\
     (head / HEADS_PER_ELEM < length pos2)%nat) ->
  group_angle stray_pos (zip_with Z.add pos1 pos2) freqs n_heads half
    HEADS_PER_ELEM HEAD_GROUP_SIZE head_idx k
  = (group_angle stray_pos pos1 freqs n_heads half
       HEADS_PER_ELEM HEAD_GROUP_SIZE head_idx k
     + group_angle stray_pos pos2 freqs n_heads half
         HEADS_PER_ELEM HEAD_GROUP_SIZE head_idx k)%R.
Proof.
  intros Hin. unfold group_angle.
  destruct (in_group n_heads half HEAD_GROUP_SIZE head_idx k) eqn:Hg;
    [|lra].
  unfold in_group in Hg. apply andb_true_iff in Hg as [_ Hn].
  apply Nat.ltb_lt in Hn. destruct (Hin _ Hn) as [H1 H2].
  destruct (lookup_lt_is_Some_2 _ _ H1) as [p1 Hp1].
  destruct (lookup_lt_is_Some_2 _ _ H2) as [p2 Hp2].
  unfold load_pos. rewrite lookup_zip_with, Hp1, Hp2.
  cbn [mbind option_bind default from_option]. unfold Datatypes.id.
  rewrite plus_IZR. ring.
Qed.

Lemma launch_angle_add (pos1 pos2 : list Z) (freqs : list R)
    (n_heads half HEADS_PER_ELEM HEAD_GROUP_SIZE : nat)
    (heads : list nat) (k : nat) :
  (forall head, (head < n_heads)%nat ->
     (head / HEADS_PER_ELEM < length pos1)%nat /\
     (head / HEADS_PER_ELEM < length pos2)%nat) ->
  launch_angle stray_pos (zip_with Z.add pos1 pos2) freqs n_heads half
    HEADS_PER_ELEM HEAD_GROUP_SIZE heads k
  = (launch_angle stray_pos pos1 freqs n_heads half
       HEADS_PER_ELEM HEAD_GROUP_SIZE heads k
     + launch_angle stray_pos pos2 freqs n_heads half
         HEADS_PER_ELEM HEAD_GROUP_SIZE heads k)%R.
Proof.
  intros Hin. unfold launch_angle.
  induction heads as [|hi heads IH];
    [rewrite !fmap_nil; cbn [foldr]; lra|].
  rewrite !fmap_cons. cbn [foldr].
  rewrite IH, group_angle_add by done. ring.
Qed.

Lemma next_power_of_2_ge (n : nat) : (n <= next_power_of_2 n)%nat.
Proof.
  unfold next_power_of_2. destruct (Nat.eqb_spec n 0) as [->|Hn]; [done|].
  destruct (Nat.eq_dec n 1) as [->|Hn1]; [done|].
  apply (Nat.log2_up_spec n). lia.
Qed.

Lemma rope_apply_jit_checks_shape (x x' : ftensor) (pos pos' : itensor)
    (freqs : ftensor) :
  f_shape x' = f_shape x -> f_contiguous x' = f_contiguous x ->
  i_shape pos' = i_shape pos -> i_contiguous pos' = i_contiguous pos ->
  rope_apply_jit_checks x' pos' freqs = rope_apply_jit_checks x pos freqs.
Proof.
  intros Hs Hc Hps Hpc. unfold rope_apply_jit_checks.
  by rewrite Hs, Hc, Hps, Hpc.
Qed.

End KernelFacts.


(** ** The wrapper on small inputs *)

Lemma rope_apply_jit_rejects_witness :
  rope_apply_jit sin cos (fun _ => 0%Z)
    (FTensor [1; 1; 3] true 4 [1; 0; 2]%R)
    (ITensor [1] true [1%Z])
    (FTensor [1] true 4 [1%R]) false
  = (Err ValueError, [1; 0; 2]%R).
Proof.
  apply (rope_apply_jit_rejects sin cos (fun _ => 0%Z)
           (FTensor [1; 1; 3] true 4 [1; 0; 2]%R)
           (ITensor [1] true [1%Z])
           (FTensor [1] true 4 [1%R]) false).
  right. right. exists 1%nat, 1%nat, 3%nat. split; [reflexivity|].
  right. right. left. intros (n & Hn & H2). simpl in Hn.
  injection Hn as <-. discriminate H2.
Defined.

Lemma rope_apply_jit_zero_pos_witness :
  (rope_apply_jit sin cos (fun _ => 0%Z)
     (FTensor [2; 1; 2] true 4 [1; 0; 0; 1]%R)
     (ITensor [2] true [0; 0]%Z)
     (FTensor [1] true 4 [1%R]) false).2
  = [1; 0; 0; 1]%R.
Proof.
  apply (rope_apply_jit_zero_pos sin cos (fun _ => 0%Z)
           (FTensor [2; 1; 2] true 4 [1; 0; 0; 1]%R)
           (ITensor [2] true [0; 0]%Z)
           (FTensor [1] true 4 [1%R])).
  - reflexivity.
  - repeat constructor.
Defined.


(** The scenario of one head [(1, 0)] at position 1 with frequency 1: the
    call returns and the head becomes [(cos 1, sin 1)]. *)
Lemma rope_apply_jit_one_radian :
  exists re im,
    rope_apply_jit sin cos (fun _ => 0%Z)
      (FTensor [1; 1; 2] true 4 [1; 0]%R)
      (ITensor [1] true [1%Z])
      (FTensor [1] true 4 [1%R]) false
    = (Ok tt, [re; im]) /\ re = cos 1 /\ im = sin 1.
Proof.
  eexists _, _. split; [reflexivity|]. cbn.
  replace (1 * 1)%R with 1%R by lra. split; lra.
Qed.


(** * Further properties of the code *)

(** ** The frequency table *)

(** X1: for [theta > 0], an even [dim >= 0] and a [max_seq_len >= 0],
    [rope_params] returns a well-formed table of [max_seq_len] rows and
    [dim / 2] columns, every block of which is the rotation block of
    some angle. *)
Theorem rope_params_shape (max_seq_len dim : Z) (theta : R) :
  (0 < theta)%R ->
  (dim mod 2 = 0)%Z -> (0 <= max_seq_len)%Z -> (0 <= dim)%Z ->
  exists t,
    rope_params max_seq_len dim theta = Ok t /\
    table_wf t /\
    t_rows t = Z.to_nat max_seq_len /\
    t_cols t = Z.to_nat (dim / 2) /\
    rotation_table t.
Proof.
  intros _ Hev Hmax Hdim. exists (rope_table max_seq_len dim theta).
  split; [by apply rope_params_ok|]. split; [apply rope_table_wf|].
  split; [done|]. split; [done|].
  unfold rotation_table, rope_table. cbn [t_data].
  apply Forall_fmap, Forall_forall. intros p _. cbn.
  apply Forall_fmap, Forall_forall. intros i _. cbn. by eexists.
Qed.

Lemma rope_params_shape_witness :
  exists t,
    rope_params 4 6 10000 = Ok t /\ table_wf t /\
    t_rows t = 4%nat /\ t_cols t = 3%nat /\ rotation_table t.
Proof.
  apply (rope_params_shape 4 6 10000); [lra | reflexivity | lia | lia].
Defined.

(** X2: for [theta > 0], the row of position 0 holds the identity block
    in every column: position 0 is not rotated. *)
Theorem rope_params_row_zero (max_seq_len dim : Z) (theta : R) (i : nat) :
  (0 < theta)%R ->
  (dim mod 2 = 0)%Z -> (0 < max_seq_len)%Z -> (Z.of_nat i < dim / 2)%Z ->
  exists t,
    rope_params max_seq_len dim theta = Ok t /\
    table_at t 0 i = Some {| m00 := 1; m01 := 0; m10 := 0; m11 := 1 |}.
Proof.
  intros _ Hev Hmax Hi. exists (rope_table max_seq_len dim theta). split.
  - apply rope_params_ok; [done | lia |].
    Z.to_euclidean_division_equations; lia.
  - rewrite rope_table_at by (done || lia). unfold rot_block.
    rewrite Rmult_0_l, sin_0, cos_0, Ropp_0. done.
Qed.

Lemma rope_params_row_zero_witness :
  exists t,
    rope_params 4 6 10000 = Ok t /\
    table_at t 0 2 = Some {| m00 := 1; m01 := 0; m10 := 0; m11 := 1 |}.
Proof.
  apply (rope_params_row_zero 4 6 10000 2); [lra | reflexivity | lia |].
  reflexivity.
Defined.

(** X3: for [theta > 0], positions add up in the table: the block at
    position [p1 + p2] is the product of the blocks at [p1] and at [p2],
    in every column. *)
Theorem rope_params_positions_add (max_seq_len dim : Z) (theta : R)
    (p1 p2 i : nat) :
  (0 < theta)%R ->
  (dim mod 2 = 0)%Z -> (Z.of_nat (p1 + p2) < max_seq_len)%Z ->
  (Z.of_nat i < dim / 2)%Z ->
  exists t b1 b2,
    rope_params max_seq_len dim theta = Ok t /\
    table_at t p1 i = Some b1 /\ table_at t p2 i = Some b2 /\
    table_at t (p1 + p2) i = Some (mat2_mul b1 b2).
Proof.
  intros _ Hev Hmax Hi. exists (rope_table max_seq_len dim theta).
  rewrite !rope_table_at by (done || lia).
  eexists _, _. split.
  { apply rope_params_ok; [done | lia |].
    Z.to_euclidean_division_equations; lia. }
  split; [reflexivity|]. split; [reflexivity|].
  unfold rot_block, mat2_mul. cbn [m00 m01 m10 m11].
  rewrite Nat2Z.inj_add, plus_IZR, Rmult_plus_distr_r.
  rewrite cos_plus, sin_plus. f_equal.
  f_equal; ring.
Qed.

Lemma rope_params_positions_add_witness :
  exists t b1 b2,
    rope_params 4 6 10000 = Ok t /\
    table_at t 1 2 = Some b1 /\ table_at t 2 2 = Some b2 /\
    table_at t (1 + 2) 2 = Some (mat2_mul b1 b2).
Proof.
  apply (rope_params_positions_add 4 6 10000 1 2 2);
    [lra | reflexivity | lia | reflexivity].
Defined.

(** ** [rope_apply] *)

Lemma mapM_length {A B} (f : A -> result B) (l : list A) (bs : list B) :
  mapM f l = Ok bs -> length bs = length l.
Proof.
  revert bs. induction l as [|a l IH]; intros bs Hm; simpl in Hm.
  - by injection Hm as <-.
  - bind_inv Hm. bind_inv Hm. injection Hm as <-. simpl. f_equal. eauto.
Qed.

Lemma mapM_ok_intro {A B} (f : A -> result B) (l : list A) :
  (forall i a, l !! i = Some a -> exists b, f a = Ok b) ->
  exists bs, mapM f l = Ok bs.
Proof.
  induction l as [|a l IH]; intros Hall; [by eexists|].
  destruct (Hall 0%nat a eq_refl) as [b Hb].
  destruct IH as [bs Hbs]; [intros i a' Hi; by apply (Hall (S i))|].
  exists (b :: bs). simpl. by rewrite Hb, Hbs.
Qed.

Lemma enumerate_lookup_inv {A} (l : list A) (i j : nat) (a : A) :
  enumerate l !! i = Some (j, a) -> j = i /\ l !! i = Some a.
Proof.
  unfold enumerate. intros H. apply lookup_zip_Some in H as [Hs Hl].
  split; [|done]. apply lookup_seq in Hs. lia.
Qed.

(** The conditions under which the loop body accepts a sample. *)
Lemma rope_apply_sample_accepts (x : tensor4) bands (max_seq_len i : nat)
    (f h w : Z) :
  (i < length (x_data x))%nat ->
  (x_L x <> 0)%nat -> (x_L x <> 1)%nat -> (x_n x <> 0)%nat ->
  (x_d x mod 2 = 0)%nat -> (x_d x / 2 <> 0)%nat ->
  (f * h * w = Z.of_nat (x_L x))%Z ->
  (0 <= f <= Z.of_nat max_seq_len)%Z ->
  (0 <= h <= Z.of_nat max_seq_len)%Z ->
  (0 <= w <= Z.of_nat max_seq_len)%Z ->
  exists x_i, rope_apply_sample x bands max_seq_len i (f, h, w) = Ok x_i.
Proof.
  intros Hi HL0 HL1 Hn Hev Hc Hlen Hf Hh Hw.
  destruct bands as [[bt bh] bw]. unfold rope_apply_sample.
  rewrite (proj2 (Z.eqb_eq _ _) Hlen). cbn [ensure bind].
  destruct (lookup_lt_is_Some_2 _ _ Hi) as [sample ->]. cbn [bind].
  rewrite Hlen, Nat2Z.id.
  rewrite (proj2 (Nat.eqb_neq (x_L x * x_n x) 0)) by lia.
  rewrite (proj2 (Nat.eqb_eq _ _) Hev). cbn [negb andb ensure bind].
  rewrite !(proj2 (Z.leb_le _ _)) by lia. cbn [ensure bind].
  rewrite (proj2 (Nat.eqb_neq _ _) Hc). cbn [negb ensure bind].
  rewrite (proj2 (Z.eqb_neq (2 * Z.of_nat (x_L x) - Z.of_nat (x_L x)) 1))
    by lia.
  cbn [negb ensure bind]. by eexists.
Qed.

(** X4: the calls that [rope_apply] accepts are exactly these: the table
    has [d // 2] columns; there is at least one grid and not more grids
    than samples; the sequence length is neither 0 nor 1, there is at
    least one head, the head dimension is even and not 0; and every grid
    has [f * h * w] equal to the sequence length with [f], [h], [w]
    between 0 and the number of rows of the table. *)
Theorem rope_apply_returns_iff (x : tensor4) (grid_sizes : list (Z * Z * Z))
    (freqs : table) :
  (exists y, rope_apply x grid_sizes freqs = Ok y) <->
  (t_cols freqs = (x_d x / 2)%nat /\
   grid_sizes <> [] /\
   (length grid_sizes <= length (x_data x))%nat /\
   (x_L x <> 0)%nat /\ (x_L x <> 1)%nat /\ (x_n x <> 0)%nat /\
   (x_d x mod 2 = 0)%nat /\ (x_d x / 2 <> 0)%nat /\
   Forall (fun g => let '(f, h, w) := g in
             (f * h * w = Z.of_nat (x_L x))%Z /\
             (0 <= f <= Z.of_nat (t_rows freqs))%Z /\
             (0 <= h <= Z.of_nat (t_rows freqs))%Z /\
             (0 <= w <= Z.of_nat (t_rows freqs))%Z) grid_sizes).
Proof.
  split.
  - intros [y Hok].
    assert (Hcols : t_cols freqs = (x_d x / 2)%nat).
    { unfold rope_apply in Hok. bind_inv Hok. clear Hok.
      unfold split_bands in Hstep.
      pose proof (split_sizes_total (Z.of_nat (x_d x / 2))) as Hsum.
      destruct (split_sizes (Z.of_nat (x_d x / 2))) as [[ct ch] cw].
      ensure_inv Hstep. apply Z.eqb_eq in Hcond. lia. }
    assert (Hne : grid_sizes <> []).
    { intros ->. unfold rope_apply in Hok. bind_inv Hok.
      cbn in Hok. discriminate. }
    assert (Hall : forall i f h w, grid_sizes !! i = Some (f, h, w) ->
              (i < length (x_data x))%nat /\
              (x_L x <> 0)%nat /\ (x_L x <> 1)%nat /\ (x_n x <> 0)%nat /\
              (x_d x mod 2 = 0)%nat /\ (x_d x / 2 <> 0)%nat /\
              (f * h * w = Z.of_nat (x_L x))%Z /\
              (0 <= f <= Z.of_nat (t_rows freqs))%Z /\
              (0 <= h <= Z.of_nat (t_rows freqs))%Z /\
              (0 <= w <= Z.of_nat (t_rows freqs))%Z).
    { intros i f h w Hg.
      destruct (rope_apply_ok _ _ _ _ _ _ _ _ Hok Hg)
        as (bt & bh & bw & x_i & _ & Hsample & _).
      apply rope_apply_sample_ok in Hsample
        as (Hlen & Hf & Hh & Hw & HL0 & HL1 & Hn & Hev & Hc & sample & Hs & _).
      apply lookup_lt_Some in Hs. done. }
    destruct grid_sizes as [|g0 gs] using rev_ind; [done|]. clear IHgs.
    destruct g0 as [[f0 h0] w0].
    destruct (Hall (length gs) f0 h0 w0)
      as (Hi & HL0 & HL1 & Hn & Hev & Hc & _).
    { by rewrite lookup_app_r, Nat.sub_diag by lia. }
    split; [done|]. split; [done|].
    split; [rewrite length_app; simpl; lia|].
    do 5 (split; [done|]).
    apply Forall_lookup. intros i [[f h] w] Hg.
    by destruct (Hall i f h w Hg) as (_ & _ & _ & _ & _ & _ & H1 & H2 & H3 & H4).
  - intros (Hcols & Hne & Hlen & HL0 & HL1 & Hn & Hev & Hc & Hgrids).
    unfold rope_apply.
    assert (Hsplit : exists bands, split_bands freqs (x_d x / 2) = Ok bands).
    { unfold split_bands.
      pose proof (split_sizes_total (Z.of_nat (x_d x / 2))) as Hsum.
      destruct (split_sizes (Z.of_nat (x_d x / 2))) as [[ct ch] cw].
      rewrite (proj2 (Z.eqb_eq _ _)) by lia. by eexists. }
    destruct Hsplit as [bands ->]. cbn [bind].
    destruct (mapM_ok_intro
                (fun ig => rope_apply_sample x bands (t_rows freqs) ig.1 ig.2)
                (enumerate grid_sizes)) as [output Hout].
    { intros i [j [[f h] w]] Hi.
      apply enumerate_lookup_inv in Hi as [-> Hg]. cbn [fst snd].
      pose proof (lookup_lt_Some _ _ _ Hg) as Hlt.
      eapply Forall_lookup_1 in Hgrids; [|exact Hg].
      destruct Hgrids as (H1 & H2 & H3 & H4).
      apply rope_apply_sample_accepts; try done. lia. }
    rewrite Hout. cbn [bind].
    apply mapM_length in Hout.
    assert (length output <> 0)%nat.
    { rewrite Hout. unfold enumerate.
      rewrite length_zip_with, length_seq.
      destruct grid_sizes; [done | simpl; lia]. }
    rewrite (proj2 (Nat.eqb_neq _ _)) by done. by eexists.
Qed.

Lemma mapM_ok_lookup_inv {A B} (f : A -> result B) (l : list A)
    (bs : list B) (i : nat) (b : B) :
  mapM f l = Ok bs -> bs !! i = Some b ->
  exists a, l !! i = Some a /\ f a = Ok b.
Proof.
  intros Hm Hb. pose proof (mapM_length _ _ _ Hm) as Hlen.
  destruct (lookup_lt_is_Some_2 l i) as [a Ha].
  { rewrite <- Hlen. by eapply lookup_lt_Some. }
  destruct (mapM_ok_lookup _ _ _ _ _ Hm Ha) as (b' & Hf & Hb').
  exists a. split; [done|]. congruence.
Qed.

Lemma pairs_length (l : list R) : length (pairs l) = (length l / 2)%nat.
Proof.
  assert (H : forall n (l : list R), (length l <= n)%nat ->
            length (pairs l) = (length l / 2)%nat).
  { clear l. induction n as [|n IH]; intros [|a [|b l]] Hl;
      try reflexivity; simpl in Hl; try lia.
    change (length (pairs (a :: b :: l))) with (S (length (pairs l))).
    rewrite IH by lia.
    change (length (a :: b :: l)) with (1 * 2 + length l)%nat.
    rewrite Nat.div_add_l by lia. lia. }
  by apply (H (length l)).
Qed.

Lemma rotate_head_length (fv : list mat2) (head : list R) :
  length (rotate_head fv head)
  = (2 * Nat.min (length fv) (length head / 2))%nat.
Proof.
  unfold rotate_head. rewrite <- pairs_length.
  generalize (pairs head). intros ps. revert ps.
  induction fv as [|m fv IH]; intros [|p ps]; try reflexivity.
  cbn [zip_with concat length apply_block app]. rewrite IH. simpl. lia.
Qed.

Lemma grid_freqs_Forall (bt bh bw : list (list mat2)) (f h w nt nh nw : nat) :
  Forall (fun row => length row = nt) bt ->
  Forall (fun row => length row = nh) bh ->
  Forall (fun row => length row = nw) bw ->
  Forall (fun fv => length fv = (nt + nh + nw)%nat)
    (grid_freqs bt bh bw f h w).
Proof.
  intros Ht Hh Hw. unfold grid_freqs.
  apply Forall_fmap, Forall_concat, Forall_concat, Forall_fmap.
  eapply Forall_impl; [apply Forall_take, Ht|]. intros rt Hrt. cbn.
  apply Forall_fmap.
  eapply Forall_impl; [apply Forall_take, Hh|]. intros rh Hrh. cbn.
  apply Forall_fmap.
  eapply Forall_impl; [apply Forall_take, Hw|]. intros rw Hrw. cbn.
  cbv beta in Hrt, Hrh, Hrw.
  rewrite <- !flat_row_app, blocks_flat_row, !length_app. lia.
Qed.

(** X5: a call of [rope_apply] that returns gives a well-formed tensor
    with one sample per grid and the sequence length, the number of
    heads and the head dimension of its input. *)
Theorem rope_apply_shape (x : tensor4) (grid_sizes : list (Z * Z * Z))
    (freqs : table) (y : tensor4) :
  tensor4_wf x -> table_wf freqs ->
  rope_apply x grid_sizes freqs = Ok y ->
  tensor4_wf y /\
  x_B y = length grid_sizes /\
  x_L y = x_L x /\ x_n y = x_n x /\ x_d y = x_d x.
Proof.
  intros Hwf Htab Hok. unfold rope_apply in Hok.
  bind_inv Hok. destruct a as [[bt bh] bw]. rename Hstep into Hsplit.
  bind_inv Hok. rename a into output. ensure_inv Hok.
  injection Hok as <-. cbn [x_B x_L x_n x_d].
  pose proof (mapM_length _ _ _ Hstep) as Hlen.
  assert (Hlg : length (enumerate grid_sizes) = length grid_sizes).
  { unfold enumerate. rewrite length_zip_with, length_seq. lia. }
  split; [|by rewrite Hlen].
  split; [done|]. cbn [x_data x_L x_n x_d].
  apply Forall_lookup. intros i x_i Hi.
  destruct (mapM_ok_lookup_inv _ _ _ _ _ Hstep Hi) as ([j [[f h] w]] & Hg & Hs).
  cbn [fst snd] in Hs.
  apply rope_apply_sample_ok in Hs
    as (HL & Hf & Hh & Hw & _ & _ & _ & Hev & _ & sample & Hsample & ->).
  destruct (split_bands_ok _ _ _ _ _ Htab Hsplit)
    as (_ & Hlt & Hlh & Hlw & (nt & nh & nw & _ & Hsum & HnT & HnH & HnW) & _).
  destruct Hwf as [_ Hall].
  pose proof (Forall_lookup_1 _ _ _ _ Hall Hsample) as [Hls Htoks].
  rewrite drop_ge, app_nil_r, take_ge by lia.
  pose proof (grid_freqs_length bt bh bw (Z.to_nat f) (Z.to_nat h)
                (Z.to_nat w) ltac:(lia) ltac:(lia) ltac:(lia)) as Hgl.
  split.
  - rewrite length_zip_with, Hgl.
    replace (Z.to_nat f * Z.to_nat h * Z.to_nat w)%nat with (x_L x); [lia|].
    rewrite <- !Z2Nat.inj_mul by lia. lia.
  - apply Forall_forall. intros token' Htok.
    apply elem_of_zip_with in Htok as (fv & token & -> & Hfv & Htoken).
    pose proof (proj1 (Forall_forall _ _) Htoks token Htoken) as [Hn Hheads].
    pose proof (proj1 (Forall_forall _ _)
                  (grid_freqs_Forall _ _ _ _ _ _ _ _ _ HnT HnH HnW)
                  fv Hfv) as Hlfv. cbn in Hlfv.
    unfold rotate_token. rewrite length_fmap. split; [done|].
    apply Forall_fmap. eapply Forall_impl; [exact Hheads|].
    intros head Hhead. cbn. rewrite rotate_head_length, Hlfv, Hhead, Hsum.
    pose proof (Nat.div_mod_eq (x_d x) 2). lia.
Qed.

Lemma rope_apply_shape_witness :
  exists y,
    rope_apply two_tokens [(2, 1, 1)%Z] two_rows = Ok y /\
    tensor4_wf y /\ x_B y = 1%nat /\ x_L y = 2%nat.
Proof.
  assert (Hy : exists y, rope_apply two_tokens [(2, 1, 1)%Z] two_rows = Ok y)
    by (eexists; reflexivity).
  destruct Hy as [y Hy]. exists y. split; [exact Hy|].
  destruct (rope_apply_shape two_tokens [(2, 1, 1)%Z] two_rows y
              two_tokens_wf two_rows_wf Hy) as (Hwf & HB & HL & _).
  split; [exact Hwf|]. split; [exact HB | exact HL].
Defined.

(** X6: with a table of rotation blocks, [rope_apply] keeps the length
    of every coordinate pair: [re'^2 + im'^2 = re^2 + im^2]. *)
Theorem rope_apply_isometry (x : tensor4) (grid_sizes : list (Z * Z * Z))
    (freqs : table) (y : tensor4) (i : nat) (f h w : Z)
    (ft ht wt k j : nat) (re im : R) :
  tensor4_wf x -> table_wf freqs -> rotation_table freqs ->
  rope_apply x grid_sizes freqs = Ok y ->
  grid_sizes !! i = Some (f, h, w) ->
  (Z.of_nat ft < f)%Z -> (Z.of_nat ht < h)%Z -> (Z.of_nat wt < w)%Z ->
  let t := ((ft * Z.to_nat h + ht) * Z.to_nat w + wt)%nat in
  x_at x i t k (2 * j) = Some re ->
  x_at x i t k (2 * j + 1) = Some im ->
  exists re' im',
    x_at y i t k (2 * j) = Some re' /\
    x_at y i t k (2 * j + 1) = Some im' /\
    (re' * re' + im' * im' = re * re + im * im)%R.
Proof.
  intros Hwf Htab Hrot Hok Hg Hft Hht Hwt t Hre Him.
  destruct (rope_apply_token x grid_sizes freqs y i f h w ft ht wt k j re im)
    as (bt & bh & bw & rT & rH & rW & m & Hs & HT & HH & HW & _ & _
        & Hm & Hyre & Hyim); try done.
  destruct (split_bands_Forall _ _ _ _ _ _ Hrot Hs) as (HPt & HPh & HPw).
  eapply Forall_lookup_1 in HPt; [|exact HT].
  eapply Forall_lookup_1 in HPh; [|exact HH].
  eapply Forall_lookup_1 in HPw; [|exact HW].
  assert (Hm' : exists a, m = rot_block a).
  { apply (Forall_lookup_1 (fun m => exists a, m = rot_block a)
             (rT ++ rH ++ rW) j m); [|exact Hm].
    by repeat apply Forall_app_2. }
  destruct Hm' as [a ->]. subst t.
  eexists _, _. split; [exact Hyre|]. split; [exact Hyim|].
  cbn [rot_block m00 m01 m10 m11].
  pose proof (sin2_cos2 a) as Hsc. unfold Rsqr in Hsc.
  replace (re * re + im * im)%R
    with ((re * re + im * im) * (sin a * sin a + cos a * cos a))%R
    by (rewrite Hsc; ring).
  ring.
Qed.

Lemma rope_apply_isometry_witness :
  exists y re' im',
    rope_apply two_tokens [(2, 1, 1)%Z] two_rows = Ok y /\
    x_at y 0 1 0 0 = Some re' /\ x_at y 0 1 0 1 = Some im' /\
    (re' * re' + im' * im' = 0 * 0 + 1 * 1)%R.
Proof.
  assert (Hy : exists y, rope_apply two_tokens [(2, 1, 1)%Z] two_rows = Ok y)
    by (eexists; reflexivity).
  destruct Hy as [y Hy]. exists y.
  destruct (rope_apply_isometry two_tokens [(2, 1, 1)%Z] two_rows y
              0 2 1 1 1 0 0 0 0 0 1
              two_tokens_wf two_rows_wf two_rows_rotation Hy)
    as (re' & im' & Hre & Him & Hn);
    [reflexivity | lia | lia | lia | reflexivity | reflexivity |].
  exists re', im'. split; [exact Hy|].
  split; [exact Hre|]. split; [exact Him | exact Hn].
Defined.

(** ** [rope_apply] on the table of [WanModel] *)

Lemma cat_cols_wf (a b c t : table) :
  table_wf a -> table_wf b -> table_wf c ->
  cat_cols a b c = Ok t ->
  table_wf t /\ t_rows t = t_rows a.
Proof.
  intros [Hla Hwa] [Hlb Hwb] [Hlc Hwc]. unfold cat_cols. intros H.
  ensure_inv H. apply andb_true_iff in Hcond as [Hab Hbc].
  apply Nat.eqb_eq in Hab, Hbc. injection H as <-.
  split; [|done]. split; cbn [t_data t_rows t_cols].
  - rewrite !length_zip_with. lia.
  - apply Forall_forall. intros row Hrow.
    apply elem_of_zip_with in Hrow as (ra & rbc & -> & Hra & Hrbc).
    apply elem_of_zip_with in Hrbc as (rb & rc & -> & Hrb & Hrc).
    rewrite !length_app.
    rewrite (proj1 (Forall_forall _ _) Hwa ra Hra).
    rewrite (proj1 (Forall_forall _ _) Hwb rb Hrb).
    rewrite (proj1 (Forall_forall _ _) Hwc rc Hrc). lia.
Qed.

(** The buffer of [WanModel] for an even head dimension: its shape, and
    the bands that [rope_apply] cuts out of it. *)
Lemma wan_freqs_bands (d : nat) (t : table) :
  wan_freqs (Z.of_nat d) = Ok t ->
  let '(dt, dh, dw) := wan_table_dims (Z.of_nat d) in
  (dt mod 2 = 0 /\ dh mod 2 = 0 /\ dw mod 2 = 0 /\
   0 <= dt /\ 0 <= dh /\ 0 <= dw)%Z /\
  table_wf t /\ t_rows t = 1024%nat /\
  split_bands t (d / 2)
    = Ok (t_data (rope_table 1024 dt 10000),
          t_data (rope_table 1024 dh 10000),
          t_data (rope_table 1024 dw 10000)).
Proof.
  unfold wan_freqs. intros H. ensure_inv H. apply Z.eqb_eq in Hcond.
  pose proof (wan_dims_pairs _ Hcond) as Hdims.
  unfold wan_table_dims, split_sizes in *.
  destruct Hdims as (Ht & Hh & Hw & Hsplit).
  set (D := Z.of_nat d) in *.
  assert (0 <= D)%Z by lia.
  assert (0 <= D / 6)%Z by (Z.to_euclidean_division_equations; lia).
  assert (4 * (D / 6) <= D)%Z by (Z.to_euclidean_division_equations; lia).
  rewrite !rope_params_ok in H by (done || lia). cbn [bind] in H.
  pose proof (rope_table_wf 1024 (D - 4 * (D / 6)) 10000) as Hwt.
  pose proof (rope_table_wf 1024 (2 * (D / 6)) 10000) as Hwh.
  assert (Hct : t_cols (rope_table 1024 (D - 4 * (D / 6)) 10000)
                = Z.to_nat ((D - 4 * (D / 6)) / 2)) by reflexivity.
  assert (Hch : t_cols (rope_table 1024 (2 * (D / 6)) 10000)
                = Z.to_nat ((2 * (D / 6)) / 2)) by reflexivity.
  assert (Hrt : t_rows (rope_table 1024 (D - 4 * (D / 6)) 10000)
                = 1024%nat) by reflexivity.
  assert (Hrh : t_rows (rope_table 1024 (2 * (D / 6)) 10000)
                = 1024%nat) by reflexivity.
  set (ft := rope_table 1024 (D - 4 * (D / 6)) 10000) in *.
  set (fh := rope_table 1024 (2 * (D / 6)) 10000) in *.
  clearbody ft fh.
  destruct (split_bands_cat ft fh fh (d / 2)) as (t' & Hcat & Hc & Hs);
    try done; [congruence | |].
  { unfold split_sizes. rewrite Hct, Hch.
    rewrite !Z2Nat.id by (Z.to_euclidean_division_equations; lia).
    rewrite Nat2Z.inj_div. fold D. change (Z.of_nat 2) with 2%Z.
    by rewrite <- Hsplit. }
  rewrite Hcat in H. injection H as <-.
  destruct (cat_cols_wf ft fh fh t' Hwt Hwh Hwh Hcat) as [Hwf Hrows].
  split; [lia|]. split; [done|]. split; [congruence | done].
Qed.

Lemma rope_table_row (max_seq_len dim : Z) (theta : R) (p : nat) :
  (Z.of_nat p < max_seq_len)%Z ->
  t_data (rope_table max_seq_len dim theta) !! p
  = Some ((fun i : nat =>
             rot_block (IZR (Z.of_nat p)
                        * (1 / Rpower theta
                                 (IZR (2 * Z.of_nat i) / IZR dim)))%R)
            <$> seq 0 (Z.to_nat (dim / 2))).
Proof.
  intros Hp. unfold rope_table. cbn [t_data].
  by rewrite list_lookup_fmap, lookup_seq_lt by lia.
Qed.

Lemma table_angle (theta : R) (dim : Z) (p i : nat) :
  (IZR (Z.of_nat p) * (1 / Rpower theta (IZR (2 * Z.of_nat i) / IZR dim)))%R
  = (INR p / Rpower theta (2 * INR i / IZR dim))%R.
Proof.
  rewrite mult_IZR, <- !INR_IZR_INZ. unfold Rdiv.
  by rewrite Rmult_1_l.
Qed.

(** The rotation of one pair of one token by [rope_apply] when the table
    is the buffer of [WanModel]. *)
Lemma rope_apply_wan_token (x : tensor4) (grid_sizes : list (Z * Z * Z))
    (t : table) (y : tensor4) (i : nat) (f h w : Z)
    (ft ht wt k j : nat) (re im : R) :
  tensor4_wf x ->
  wan_freqs (Z.of_nat (x_d x)) = Ok t ->
  rope_apply x grid_sizes t = Ok y ->
  grid_sizes !! i = Some (f, h, w) ->
  (Z.of_nat ft < f)%Z -> (Z.of_nat ht < h)%Z -> (Z.of_nat wt < w)%Z ->
  let tok := ((ft * Z.to_nat h + ht) * Z.to_nat w + wt)%nat in
  x_at x i tok k (2 * j) = Some re ->
  x_at x i tok k (2 * j + 1) = Some im ->
  let a := wan_angle (Z.of_nat (x_d x)) ft ht wt j in
  x_at y i tok k (2 * j) = Some (re * cos a - im * sin a)%R /\
  x_at y i tok k (2 * j + 1) = Some (im * cos a + re * sin a)%R.
Proof.
  intros Hwf Hwan Hok Hg Hft Hht Hwt tok Hre Him a.
  pose proof (wan_freqs_bands _ _ Hwan) as Hb.
  subst a. unfold wan_angle.
  destruct (wan_table_dims (Z.of_nat (x_d x))) as [[dt dh] dw].
  destruct Hb as (_ & Htab & Hrows & Hsplit).
  destruct (rope_apply_ok _ _ _ _ _ _ _ _ Hok Hg)
    as (bt0 & bh0 & bw0 & x_i & _ & Hsample & _).
  apply rope_apply_sample_ok in Hsample as (_ & Hf & Hh & Hw & _).
  rewrite Hrows in Hf, Hh, Hw.
  destruct (rope_apply_token x grid_sizes t y i f h w ft ht wt k j re im)
    as (bt & bh & bw & rT & rH & rW & m & Hs & HT & HH & HW & _ & Hlen
        & Hm & Hyre & Hyim); try done.
  rewrite Hsplit in Hs.
  remember (t_data (rope_table 1024 dt 10000)) as tT eqn:HtT.
  remember (t_data (rope_table 1024 dh 10000)) as tH eqn:HtH.
  remember (t_data (rope_table 1024 dw 10000)) as tW eqn:HtW.
  injection Hs as <- <- <-. subst tT tH tW.
  rewrite rope_table_row in HT, HH, HW by lia.
  injection HT as <-. injection HH as <-. injection HW as <-.
  fold tok in Hyre, Hyim.
  set (nt := Z.to_nat (dt / 2)) in *. set (nh := Z.to_nat (dh / 2)) in *.
  set (nw := Z.to_nat (dw / 2)) in *.
  rewrite !length_app, !length_fmap, !length_seq in Hlen.
  pose proof (lookup_lt_Some _ _ _ Hm) as Hj.
  rewrite !length_app, !length_fmap, !length_seq in Hj.
  assert (Hblock : exists b, m = rot_block b /\
            b = (if (j <? nt)%nat
                 then INR ft / Rpower 10000 (2 * INR j / IZR dt)
                 else if (j <? nt + nh)%nat
                 then INR ht / Rpower 10000 (2 * INR (j - nt) / IZR dh)
                 else INR wt
                      / Rpower 10000 (2 * INR (j - nt - nh) / IZR dw))%R).
  { destruct (Nat.ltb_spec j nt) as [H1|H1].
    - rewrite lookup_app_l in Hm by (by rewrite length_fmap, length_seq).
      rewrite list_lookup_fmap, lookup_seq_lt in Hm by done.
      injection Hm as <-. eexists. split; [reflexivity|].
      apply table_angle.
    - rewrite lookup_app_r in Hm by (rewrite length_fmap, length_seq; lia).
      rewrite length_fmap, length_seq in Hm.
      destruct (Nat.ltb_spec j (nt + nh)) as [H2|H2].
      + rewrite lookup_app_l in Hm by (rewrite length_fmap, length_seq; lia).
        rewrite list_lookup_fmap, lookup_seq_lt in Hm by lia.
        injection Hm as <-. eexists. split; [reflexivity|].
        apply table_angle.
      + rewrite lookup_app_r in Hm by (rewrite length_fmap, length_seq; lia).
        rewrite length_fmap, length_seq in Hm.
        rewrite list_lookup_fmap, lookup_seq_lt in Hm by lia.
        injection Hm as <-. eexists. split; [reflexivity|].
        apply table_angle. }
  destruct Hblock as (b & -> & <-).
  rewrite Hyre, Hyim. cbn [rot_block m00 m01 m10 m11].
  split; apply (f_equal Some); ring.
Qed.

(** X7: with the buffer that [WanModel.__init__] builds for the head
    dimension of [x], [rope_apply] turns pair [j] of the token at grid
    position [(ft, ht, wt)] by the angle [wan_angle]: the temporal
    position over [10000 ^ (2 j / dt)] in the first band, and likewise
    the height and the width position in the second and third band. *)
Theorem rope_apply_wan_freqs (x : tensor4) (grid_sizes : list (Z * Z * Z))
    (t : table) (y : tensor4) (i : nat) (f h w : Z)
    (ft ht wt k j : nat) (re im : R) :
  tensor4_wf x ->
  wan_freqs (Z.of_nat (x_d x)) = Ok t ->
  rope_apply x grid_sizes t = Ok y ->
  grid_sizes !! i = Some (f, h, w) ->
  (Z.of_nat ft < f)%Z -> (Z.of_nat ht < h)%Z -> (Z.of_nat wt < w)%Z ->
  let tok := ((ft * Z.to_nat h + ht) * Z.to_nat w + wt)%nat in
  x_at x i tok k (2 * j) = Some re ->
  x_at x i tok k (2 * j + 1) = Some im ->
  let a := wan_angle (Z.of_nat (x_d x)) ft ht wt j in
  x_at y i tok k (2 * j) = Some (re * cos a - im * sin a)%R /\
  x_at y i tok k (2 * j + 1) = Some (im * cos a + re * sin a)%R.
Proof. apply rope_apply_wan_token. Qed.

Lemma wan_angle_origin (d : Z) (j : nat) : wan_angle d 0 0 0 j = 0%R.
Proof.
  unfold wan_angle. destruct (wan_table_dims d) as [[dt dh] dw].
  cbn [INR]. destruct (_ <? _)%nat; [|destruct (_ <? _)%nat];
    unfold Rdiv; apply Rmult_0_l.
Qed.

(** X8: with the buffer of [WanModel], the first token of every sample
    (grid position (0, 0, 0)) comes out of [rope_apply] as it went in. *)
Theorem rope_apply_wan_first_token (x : tensor4)
    (grid_sizes : list (Z * Z * Z)) (t : table) (y : tensor4)
    (i : nat) (f h w : Z) (k e : nat) (v : R) :
  tensor4_wf x ->
  wan_freqs (Z.of_nat (x_d x)) = Ok t ->
  rope_apply x grid_sizes t = Ok y ->
  grid_sizes !! i = Some (f, h, w) ->
  x_at x i 0 k e = Some v ->
  x_at y i 0 k e = Some v.
Proof.
  intros Hwf Hwan Hok Hg Hv.
  destruct (rope_apply_ok _ _ _ _ _ _ _ _ Hok Hg)
    as (bt & bh & bw & x_i & _ & Hsample & _).
  apply rope_apply_sample_ok in Hsample
    as (Hlen & Hf & Hh & Hw & HL0 & _ & _ & Hev & _).
  assert (0 < f /\ 0 < h /\ 0 < w)%Z as (Hf0 & Hh0 & Hw0) by nia.
  pose proof (x_at_inv _ _ _ _ _ _ Hv)
    as (sample & token & head & Hs & Htok & Hhead & He).
  destruct (tensor4_wf_lookup _ _ _ _ _ _ _ Hwf Hs Htok Hhead)
    as (_ & _ & Hd).
  pose proof (lookup_lt_Some _ _ _ He) as Hlt. rewrite Hd in Hlt.
  pose proof (Nat.div_mod_eq (x_d x) 2) as Hdm.
  destruct (offset_cases e) as [[j ->]|[j ->]].
  - destruct (lookup_lt_is_Some_2 head (2 * j + 1)) as [im Him]; [lia|].
    destruct (rope_apply_wan_token x grid_sizes t y i f h w 0 0 0 k j v im)
      as [Hre _]; try done; try lia.
    { by rewrite (x_at_intro x i _ k _ _ _ _ Hs Htok Hhead). }
    change ((0 * Z.to_nat h + 0) * Z.to_nat w + 0)%nat with 0%nat in Hre.
    cbv zeta in Hre. rewrite Hre, wan_angle_origin, cos_0, sin_0.
    apply (f_equal Some). ring.
  - destruct (lookup_lt_is_Some_2 head (2 * j)) as [re Hre]; [lia|].
    destruct (rope_apply_wan_token x grid_sizes t y i f h w 0 0 0 k j re v)
      as [_ Him]; try done; try lia.
    { by rewrite (x_at_intro x i _ k _ _ _ _ Hs Htok Hhead). }
    change ((0 * Z.to_nat h + 0) * Z.to_nat w + 0)%nat with 0%nat in Him.
    cbv zeta in Him. rewrite Him, wan_angle_origin, cos_0, sin_0.
    apply (f_equal Some). ring.
Qed.

Lemma wan_freqs_two : exists t, wan_freqs (Z.of_nat 2) = Ok t.
Proof.
  unfold wan_freqs, wan_table_dims. change (Z.of_nat 2) with 2%Z.
  change (2 mod 2 =? 0)%Z with true. cbn [ensure bind].
  change (2 / 6)%Z with 0%Z. change (2 - 4 * 0)%Z with 2%Z.
  change (2 * 0)%Z with 0%Z.
  rewrite !rope_params_ok by (reflexivity || lia). cbn [bind].
  unfold cat_cols. by eexists.
Qed.

Lemma rope_apply_wan_two :
  forall t, wan_freqs (Z.of_nat 2) = Ok t ->
  exists y, rope_apply two_tokens [(2, 1, 1)%Z] t = Ok y.
Proof.
  intros t Ht. pose proof (wan_freqs_bands 2 t Ht) as Hb.
  change (wan_table_dims (Z.of_nat 2)) with (2%Z, 0%Z, 0%Z) in Hb.
  destruct Hb as (_ & _ & Hrows & Hsplit).
  unfold rope_apply. change (x_d two_tokens / 2)%nat with (2 / 2)%nat.
  rewrite Hsplit. cbn [bind]. rewrite Hrows.
  cbn [enumerate length seq zip_with mapM fst snd].
  unfold rope_apply_sample. by eexists.
Qed.

Lemma rope_apply_wan_freqs_witness :
  exists t y,
    wan_freqs (Z.of_nat 2) = Ok t /\
    rope_apply two_tokens [(2, 1, 1)%Z] t = Ok y /\
    x_at y 0 1 0 0
      = Some (0 * cos (wan_angle (Z.of_nat 2) 1 0 0 0)
              - 1 * sin (wan_angle (Z.of_nat 2) 1 0 0 0))%R.
Proof.
  destruct wan_freqs_two as [t Ht]. exists t.
  destruct (rope_apply_wan_two t Ht) as [y Hy]. exists y.
  split; [exact Ht|]. split; [exact Hy|].
  apply (rope_apply_wan_freqs two_tokens [(2, 1, 1)%Z] t y
           0 2 1 1 1 0 0 0 0 0 1 two_tokens_wf Ht Hy);
    [reflexivity | lia | lia | lia | reflexivity | reflexivity].
Defined.

Lemma rope_apply_wan_first_token_witness :
  exists t y,
    wan_freqs (Z.of_nat 2) = Ok t /\
    rope_apply two_tokens [(2, 1, 1)%Z] t = Ok y /\
    x_at y 0 0 0 0 = Some 1%R.
Proof.
  destruct wan_freqs_two as [t Ht]. exists t.
  destruct (rope_apply_wan_two t Ht) as [y Hy]. exists y.
  split; [exact Ht|]. split; [exact Hy|].
  apply (rope_apply_wan_first_token two_tokens [(2, 1, 1)%Z] t y
           0 2 1 1 0 0 1%R two_tokens_wf Ht Hy);
    reflexivity.
Defined.

(** ** The launch of the kernel, head by head *)

Lemma foldr_Rplus_app (l1 l2 : list R) :
  foldr Rplus 0%R (l1 ++ l2)
  = (foldr Rplus 0 l1 + foldr Rplus 0 l2)%R.
Proof.
  induction l1 as [|a l1 IH]; cbn [app foldr]; [lra|]. rewrite IH. lra.
Qed.

Lemma cdiv_exact (r G : nat) : (0 < G)%nat -> cdiv (r * G) G = r.
Proof.
  intros HG. unfold cdiv.
  replace (r * G + G - 1)%nat with (r * G + (G - 1))%nat by lia.
  rewrite Nat.div_add_l by lia. rewrite Nat.div_small by lia. lia.
Qed.

Lemma cdiv_covers (n b : nat) : (0 < b)%nat -> (n <= cdiv n b * b)%nat.
Proof.
  intros Hb. unfold cdiv.
  pose proof (Nat.div_mod_eq (n + b - 1) b) as Hdm.
  pose proof (Nat.mod_upper_bound (n + b - 1) b ltac:(lia)) as Hr.
  lia.
Qed.

(** When the block size is a multiple of the group size, the groups of
    a launch start at 0, [G], [2 G], ... without gap or overlap. *)
Lemma launch_heads_multiple (G r n_blocks : nat) :
  (0 < G)%nat ->
  launch_heads G (r * G) n_blocks
  = (fun m => m * G)%nat <$> seq 0 (n_blocks * r).
Proof.
  intros HG. unfold launch_heads.
  induction n_blocks as [|b IH]; [done|].
  rewrite seq_S, bind_app, IH. cbn [mbind list_bind app].
  rewrite app_nil_r.
  replace (S b * r)%nat with (b * r + r)%nat by lia.
  rewrite seq_app, fmap_app. f_equal.
  unfold range_step. cbn [Nat.add].
  replace ((b + 1) * (r * G) - b * (r * G))%nat with (r * G)%nat by lia.
  rewrite cdiv_exact by done.
  replace (seq (b * r) r) with (seq (b * r + 0) r) by (f_equal; lia).
  rewrite <- (fmap_add_seq (b * r) 0 r), <- list_fmap_compose.
  apply list_fmap_ext. intros _ k _. cbn. lia.
Qed.

Section KernelMore.
Variables sin_approx cos_approx : R -> R.
Variable stray_pos : nat -> Z.

Abbreviation jit2 := (rope_apply_jit sin_approx cos_approx stray_pos).

(** Over groups without gap or overlap, a pair of a head below [n_heads]
    and below the end of the last group turns once, by the position of
    its head times its frequency; every other pair does not turn. *)
Lemma launch_angle_cover (pos : list Z) (freqs : list R)
    (n_heads half HEADS_PER_ELEM G M k : nat) :
  (0 < G)%nat ->
  launch_angle stray_pos pos freqs n_heads half HEADS_PER_ELEM G
    ((fun m => m * G)%nat <$> seq 0 M) k
  = if (k / half <? n_heads)%nat && (k / half <? M * G)%nat
    then (IZR (load_pos stray_pos pos (k / half / HEADS_PER_ELEM))
          * load freqs (k mod half) true)%R
    else 0%R.
Proof.
  intros HG. unfold launch_angle.
  induction M as [|M IH].
  - cbn [seq fmap list_fmap foldr]. by rewrite andb_false_r.
  - rewrite seq_S, !fmap_app, foldr_Rplus_app, IH.
    cbn [Nat.add fmap list_fmap foldr]. unfold group_angle, in_group.
    destruct (Nat.ltb_spec (k / half) n_heads);
      destruct (Nat.ltb_spec (k / half) (M * G));
      destruct (Nat.ltb_spec (k / half) (S M * G));
      destruct (Nat.leb_spec (M * G) (k / half));
      destruct (Nat.ltb_spec (k / half) (M * G + G));
      cbn [andb]; try lra; lia.
Qed.

(** The launch configuration for a head size that divides 512 bytes. *)
Lemma head_size_divides (hs : nat) :
  hs <> 0%nat -> (512 mod hs = 0)%nat ->
  next_power_of_2 (512 / hs) = (512 / hs)%nat /\
  Nat.max 1 (2048 / hs) = (4 * (512 / hs))%nat /\
  (0 < 512 / hs)%nat.
Proof.
  intros Hhs Hdiv.
  assert (Hle : (hs <= 512)%nat).
  { pose proof (Nat.div_mod_eq 512 hs) as Hdm. rewrite Hdiv in Hdm.
    destruct (512 / hs)%nat as [|q] eqn:Hq; [lia | nia]. }
  assert (Hall : forallb (fun hs =>
            implb (512 mod hs =? 0)%nat
              ((next_power_of_2 (512 / hs) =? 512 / hs)%nat
               && (Nat.max 1 (2048 / hs) =? 4 * (512 / hs))%nat
               && (0 <? 512 / hs)%nat)) (seq 1 512) = true)
    by (vm_compute; reflexivity).
  rewrite forallb_forall in Hall.
  specialize (Hall hs ltac:(apply in_seq; lia)).
  rewrite (proj2 (Nat.eqb_eq _ _) Hdiv) in Hall. cbn [implb] in Hall.
  apply andb_true_iff in Hall as [Hall H3].
  apply andb_true_iff in Hall as [H1 H2].
  apply Nat.eqb_eq in H1, H2. apply Nat.ltb_lt in H3. done.
Qed.



Lemma group_angle_neg (pos : list Z) (freqs : list R)
    (n_heads half HEADS_PER_ELEM HEAD_GROUP_SIZE head_idx k : nat) :
  (forall head, (head < n_heads)%nat ->
     (head / HEADS_PER_ELEM < length pos)%nat) ->
  group_angle stray_pos (Z.opp <$> pos) freqs n_heads half
    HEADS_PER_ELEM HEAD_GROUP_SIZE head_idx k
  = (- group_angle stray_pos pos freqs n_heads half
         HEADS_PER_ELEM HEAD_GROUP_SIZE head_idx k)%R.
Proof.
  intros Hin. unfold group_angle.
  destruct (in_group n_heads half HEAD_GROUP_SIZE head_idx k) eqn:Hg;
    [|lra].
  unfold in_group in Hg. apply andb_true_iff in Hg as [_ Hn].
  apply Nat.ltb_lt in Hn.
  destruct (lookup_lt_is_Some_2 _ _ (Hin _ Hn)) as [p Hp].
  unfold load_pos. rewrite list_lookup_fmap, Hp.
  cbn [fmap option_fmap option_map default from_option].
  unfold Datatypes.id. rewrite opp_IZR. ring.
Qed.

Lemma launch_angle_neg (pos : list Z) (freqs : list R)
    (n_heads half HEADS_PER_ELEM HEAD_GROUP_SIZE : nat)
    (heads : list nat) (k : nat) :
  (forall head, (head < n_heads)%nat ->
     (head / HEADS_PER_ELEM < length pos)%nat) ->
  launch_angle stray_pos (Z.opp <$> pos) freqs n_heads half
    HEADS_PER_ELEM HEAD_GROUP_SIZE heads k
  = (- launch_angle stray_pos pos freqs n_heads half
         HEADS_PER_ELEM HEAD_GROUP_SIZE heads k)%R.
Proof.
  intros Hin. unfold launch_angle.
  induction heads as [|hi heads IH];
    [rewrite !fmap_nil; cbn [foldr]; lra|].
  rewrite !fmap_cons. cbn [foldr].
  rewrite IH, group_angle_neg by done. ring.
Qed.

End KernelMore.




(** ** [sinusoidal_embedding_1d] *)

Lemma sinusoidal_embedding_ok (dim : Z) (position : list R) :
  (dim mod 2 = 0)%Z -> (0 <= dim)%Z ->
  sinusoidal_embedding_1d dim position
  = Ok ((fun t : R =>
           ((fun i : nat =>
               cos (t * Rpower 10000 (- (INR i / IZR (dim / 2)))))
              <$> seq 0 (Z.to_nat (dim / 2)))
           ++ ((fun i : nat =>
                  sin (t * Rpower 10000 (- (INR i / IZR (dim / 2)))))
                 <$> seq 0 (Z.to_nat (dim / 2))))%R
          <$> position).
Proof.
  intros Hev Hdim. unfold sinusoidal_embedding_1d.
  rewrite (proj2 (Z.eqb_eq _ _) Hev). cbn [ensure bind].
  rewrite arange_ok by (Z.to_euclidean_division_equations; lia).
  cbn [bind]. f_equal.
  rewrite <- list_fmap_compose. apply list_fmap_ext. intros _ t _. cbn.
  rewrite <- !list_fmap_compose.
  f_equal; apply list_fmap_ext; intros _ i _; cbn;
    by rewrite <- INR_IZR_INZ.
Qed.

(** X12: [sinusoidal_embedding_1d] raises an assertion error for an odd
    [dim]; for an even [dim >= 0] it returns one row per position, each
    of [dim] entries. *)
Theorem sinusoidal_embedding_shape (dim : Z) (position : list R) :
  ((dim mod 2 <> 0)%Z ->
   sinusoidal_embedding_1d dim position = Err AssertionError) /\
  ((dim mod 2 = 0)%Z -> (0 <= dim)%Z ->
   exists e,
     sinusoidal_embedding_1d dim position = Ok e /\
     length e = length position /\
     Forall (fun row => length row = Z.to_nat dim) e).
Proof.
  split.
  - intros Hodd. unfold sinusoidal_embedding_1d.
    by rewrite (proj2 (Z.eqb_neq _ _) Hodd).
  - intros Hev Hdim. eexists. split; [by apply sinusoidal_embedding_ok|].
    split; [by rewrite length_fmap|].
    apply Forall_fmap, Forall_forall. intros t _. cbn.
    rewrite length_app, !length_fmap, !length_seq.
    Z.to_euclidean_division_equations; lia.
Qed.

Lemma sinusoidal_embedding_shape_witness :
  sinusoidal_embedding_1d 3 [1; 2]%R = Err AssertionError /\
  exists e,
    sinusoidal_embedding_1d 4 [1; 2]%R = Ok e /\
    length e = 2%nat /\ Forall (fun row => length row = 4%nat) e.
Proof.
  destruct (sinusoidal_embedding_shape 3 [1; 2]%R) as [Hodd _].
  destruct (sinusoidal_embedding_shape 4 [1; 2]%R) as [_ Hev].
  split; [apply Hodd; discriminate | apply Hev; [reflexivity | lia]].
Defined.

(** X13: in the row of position [t], entry [i] of the first half is
    [cos (t * 10000 ^ (- i / half))] and entry [half + i] is the sine of
    the same angle; the squares of the two add up to 1. *)
Theorem sinusoidal_embedding_entry (dim : Z) (position : list R)
    (p i : nat) (t : R) :
  (dim mod 2 = 0)%Z ->
  position !! p = Some t -> (Z.of_nat i < dim / 2)%Z ->
  let half := Z.to_nat (dim / 2) in
  let a := (t * Rpower 10000 (- (INR i / IZR (dim / 2))))%R in
  exists e row,
    sinusoidal_embedding_1d dim position = Ok e /\
    e !! p = Some row /\
    row !! i = Some (cos a) /\
    row !! (half + i)%nat = Some (sin a) /\
    (cos a * cos a + sin a * sin a = 1)%R.
Proof.
  intros Hev Hp Hi half a.
  eexists _, _. split.
  { apply sinusoidal_embedding_ok; [done|].
    Z.to_euclidean_division_equations; lia. }
  split; [by rewrite list_lookup_fmap, Hp|].
  split; [|split].
  - rewrite lookup_app_l by (rewrite length_fmap, length_seq; lia).
    by rewrite list_lookup_fmap, lookup_seq_lt by lia.
  - rewrite lookup_app_r by (rewrite length_fmap, length_seq; lia).
    rewrite length_fmap, length_seq.
    replace (half + i - Z.to_nat (dim / 2))%nat with i by lia.
    by rewrite list_lookup_fmap, lookup_seq_lt by lia.
  - pose proof (sin2_cos2 a) as Hsc. unfold Rsqr in Hsc. lra.
Qed.

Lemma sinusoidal_embedding_entry_witness :
  exists e row,
    sinusoidal_embedding_1d 4 [1; 2]%R = Ok e /\
    e !! 1%nat = Some row /\
    row !! 1%nat
      = Some (cos (2 * Rpower 10000 (- (INR 1 / IZR (4 / 2))))) /\
    row !! (Z.to_nat (4 / 2) + 1)%nat
      = Some (sin (2 * Rpower 10000 (- (INR 1 / IZR (4 / 2))))) /\
    (cos (2 * Rpower 10000 (- (INR 1 / IZR (4 / 2))))
     * cos (2 * Rpower 10000 (- (INR 1 / IZR (4 / 2))))
     + sin (2 * Rpower 10000 (- (INR 1 / IZR (4 / 2))))
       * sin (2 * Rpower 10000 (- (INR 1 / IZR (4 / 2)))) = 1)%R.
Proof.
  apply (sinusoidal_embedding_entry 4 [1; 2]%R 1 1 2%R);
    [reflexivity | reflexivity | reflexivity].
Defined.

(** ** [WanRMSNorm._norm] *)

Lemma sum_squares_nonneg (x : list R) :
  (0 <= foldr Rplus 0 ((fun v => v * v) <$> x))%R.
Proof.
  induction x as [|v x IH]; cbn [fmap list_fmap foldr]; [lra|].
  change (list_fmap R R (fun v => v * v)%R x) with ((fun v => v * v)%R <$> x).
  nra.
Qed.

Lemma sum_squares_scaled (s : R) (x : list R) :
  foldr Rplus 0%R ((fun v => v * v)%R <$> ((fun v => v * s)%R <$> x))
  = (s * s * foldr Rplus 0 ((fun v => v * v) <$> x))%R.
Proof.
  induction x as [|v x IH].
  - cbn [fmap list_fmap foldr]. ring.
  - rewrite !fmap_cons. cbn [foldr]. rewrite IH. ring.
Qed.

Lemma mean_square_nonneg (x : list R) : (0 <= mean_square x)%R.
Proof.
  unfold mean_square. destruct x as [|v x].
  - cbn. unfold Rdiv. rewrite Rmult_0_l. lra.
  - apply Rmult_le_pos; [apply sum_squares_nonneg|].
    apply Rlt_le, Rinv_0_lt_compat, lt_0_INR. simpl. lia.
Qed.

(** X14: for [eps > 0] and a non-empty last axis, [WanRMSNorm._norm]
    scales its input by one positive factor, and the mean square of its
    output is [ms / (ms + eps)] for the mean square [ms] of the input,
    hence below 1. *)
Theorem WanRMSNorm_norm_mean_square (eps : R) (x : list R) :
  (0 < eps)%R -> x <> [] ->
  (exists s, (0 < s)%R /\
     WanRMSNorm_norm eps x = (fun v => v * s)%R <$> x) /\
  mean_square (WanRMSNorm_norm eps x)
    = (mean_square x / (mean_square x + eps))%R /\
  (mean_square (WanRMSNorm_norm eps x) < 1)%R.
Proof.
  intros Heps Hne. pose proof (mean_square_nonneg x) as Hms.
  assert (Hn : INR (length x) <> 0%R).
  { apply not_0_INR. destruct x; [done | simpl; lia]. }
  set (ms := mean_square x) in *.
  assert (Hpos : (0 < ms + eps)%R) by lra.
  assert (Hsq : (0 < sqrt (ms + eps))%R) by (by apply sqrt_lt_R0).
  assert (Hmean : mean_square (WanRMSNorm_norm eps x)
                  = (ms / (ms + eps))%R).
  { unfold WanRMSNorm_norm. fold ms. unfold mean_square at 1.
    rewrite sum_squares_scaled, length_fmap.
    replace (1 / sqrt (ms + eps) * (1 / sqrt (ms + eps)))%R
      with (/ (ms + eps))%R.
    2:{ rewrite <- (sqrt_sqrt (ms + eps)) at 1 by lra. field. lra. }
    subst ms. unfold mean_square in *. field. split; [done|].
    pose proof (sum_squares_nonneg x) as Hs.
    assert (0 < INR (length x))%R.
    { apply lt_0_INR. destruct x; [done | simpl; lia]. }
    nra. }
  split; [|split].
  - exists (1 / sqrt (ms + eps))%R. split; [|done].
    apply Rdiv_lt_0_compat; lra.
  - done.
  - rewrite Hmean. apply (Rmult_lt_reg_r (ms + eps)); [done|].
    unfold Rdiv. rewrite Rmult_assoc, Rinv_l by lra. lra.
Qed.

Lemma WanRMSNorm_norm_mean_square_witness :
  (mean_square (WanRMSNorm_norm 1 [3; 4]%R) < 1)%R.
Proof.
  apply (WanRMSNorm_norm_mean_square 1 [3; 4]%R); [lra | discriminate].
Defined.

(** ** [WanModel.unpatchify] *)

Lemma chunks_length {A} (n m : nat) (l : list A) :
  (0 < n)%nat -> length l = (m * n)%nat -> length (chunks n l) = m.
Proof.
  intros Hn Hl. unfold chunks.
  rewrite length_fmap, length_seq, Hl. apply Nat.div_mul. lia.
Qed.

(** Reading entry [j] of piece [i] is reading entry [i * n + j] of the
    buffer. *)
Lemma chunks_bind {A B} (n m : nat) (l : list A) (i j : nat)
    (K : A -> option B) :
  length l = (m * n)%nat -> (i < m)%nat -> (j < n)%nat ->
  (a ← chunks n l !! i; b ← a !! j; K b) = (b ← l !! (i * n + j)%nat; K b).
Proof.
  intros Hl Hi Hj. unfold chunks.
  rewrite list_lookup_fmap, lookup_seq_lt.
  2:{ rewrite Hl, Nat.div_mul by lia. done. }
  cbn. rewrite lookup_take_lt, lookup_drop by done. done.
Qed.

Lemma chunks_bind_last {A} (n m : nat) (l : list A) (i j : nat) :
  length l = (m * n)%nat -> (i < m)%nat -> (j < n)%nat ->
  (a ← chunks n l !! i; a !! j) = l !! (i * n + j)%nat.
Proof.
  intros Hl Hi Hj. unfold chunks.
  rewrite list_lookup_fmap, lookup_seq_lt.
  2:{ rewrite Hl, Nat.div_mul by lia. done. }
  cbn. rewrite lookup_take_lt, lookup_drop by done. done.
Qed.

Lemma idx_lt (a A b B : nat) :
  (a < A)%nat -> (b < B)%nat -> (a * B + b < A * B)%nat.
Proof. intros Ha Hb. nia. Qed.

(** The 7-dimensional view of a flat buffer, read at one index. *)
Lemma view7_at (F H W P Q T C : nat) (flat : list R)
    (f h w p q r c : nat) :
  length flat = (F * H * W * P * Q * T * C)%nat ->
  (f < F)%nat -> (h < H)%nat -> (w < W)%nat -> (p < P)%nat ->
  (q < Q)%nat -> (r < T)%nat -> (c < C)%nat ->
  at7 (chunks H (chunks W (chunks P (chunks Q (chunks T (chunks C flat))))))
    f h w p q r c
  = default 0%R
      (flat !! ((((((f * H + h) * W + w) * P + p) * Q + q) * T + r) * C
                + c)%nat).
Proof.
  intros Hl Hf Hh Hw Hp Hq Hr Hc. unfold at7. f_equal.
  assert (L1 : length (chunks C flat) = (F * H * W * P * Q * T)%nat)
    by (apply chunks_length; [lia | done]).
  assert (L2 : length (chunks T (chunks C flat)) = (F * H * W * P * Q)%nat)
    by (apply chunks_length; [lia | done]).
  assert (L3 : length (chunks Q (chunks T (chunks C flat)))
               = (F * H * W * P)%nat)
    by (apply chunks_length; [lia | done]).
  assert (L4 : length (chunks P (chunks Q (chunks T (chunks C flat))))
               = (F * H * W)%nat)
    by (apply chunks_length; [lia | done]).
  assert (L5 : length (chunks W (chunks P (chunks Q (chunks T
                         (chunks C flat)))))
               = (F * H)%nat)
    by (apply chunks_length; [lia | done]).
  rewrite (chunks_bind H F) by done.
  rewrite (chunks_bind W (F * H)) by (done || by repeat apply idx_lt).
  rewrite (chunks_bind P (F * H * W)) by (done || by repeat apply idx_lt).
  rewrite (chunks_bind Q (F * H * W * P))
    by (done || by repeat apply idx_lt).
  rewrite (chunks_bind T (F * H * W * P * Q))
    by (done || by repeat apply idx_lt).
  rewrite (chunks_bind_last C (F * H * W * P * Q * T))
    by (done || by repeat apply idx_lt).
  done.
Qed.

Lemma length_concat_uniform {A} (ls : list (list A)) (n : nat) :
  Forall (fun l => length l = n) ls ->
  length (concat ls) = (length ls * n)%nat.
Proof.
  induction 1 as [|l ls Hl _ IH]; [done|].
  cbn [concat length]. rewrite length_app, IH. lia.
Qed.

Lemma lookup_fmap_seq {A} (g : nat -> A) (n i : nat) :
  (i < n)%nat -> (g <$> seq 0 n) !! i = Some (g i).
Proof. intros Hi. by rewrite list_lookup_fmap, lookup_seq_lt. Qed.

Lemma Forall_fmap_seq_length {A} (g : nat -> list A) (n m : nat) :
  (forall i, length (g i) = m) ->
  Forall (fun l => length l = m) (g <$> seq 0 n).
Proof. intros Hg. apply Forall_fmap, Forall_forall. intros i _. apply Hg. Qed.

(** X15: for a sample [u] of at least [F * H * W] rows of width
    [P * Q * T * c], [unpatchify] puts the scalar [u[(f H + h) W + w]
    [((p Q + q) T + r) c + ch]] (patch [(f, h, w)], offset [(p, q, r)]
    inside the patch, channel [ch]) at
    [out[ch][f P + p][h Q + q][w T + r]]. *)
Theorem unpatchify_sample_index (P Q T C : nat) (u : list (list R))
    (F H W f h w p q r ch : nat) (row : list R) (v : R) :
  Forall (fun row => length row = (P * Q * T * C)%nat) u ->
  (F * H * W <= length u)%nat ->
  (f < F)%nat -> (h < H)%nat -> (w < W)%nat ->
  (p < P)%nat -> (q < Q)%nat -> (r < T)%nat -> (ch < C)%nat ->
  u !! ((f * H + h) * W + w)%nat = Some row ->
  row !! (((p * Q + q) * T + r) * C + ch)%nat = Some v ->
  exists out oc ofp ohq,
    unpatchify_sample (P, Q, T) C u (F, H, W) = Ok out /\
    out !! ch = Some oc /\
    oc !! (f * P + p)%nat = Some ofp /\
    ofp !! (h * Q + q)%nat = Some ohq /\
    ohq !! (w * T + r)%nat = Some v.
Proof.
  intros Hu Hlen Hf Hh Hw Hp Hq Hr Hc Hrow Hv.
  unfold unpatchify_sample.
  set (flat := concat (take (F * H * W) u)).
  assert (Hflat : length flat = (F * H * W * P * Q * T * C)%nat).
  { unfold flat. rewrite (length_concat_uniform _ (P * Q * T * C)).
    - rewrite length_take, Nat.min_l by done. ring.
    - by apply Forall_take. }
  rewrite (proj2 (Nat.eqb_eq _ _) Hflat). cbn [ensure bind].
  assert (Hat : at7 (chunks H (chunks W (chunks P (chunks Q (chunks T
                        (chunks C flat)))))) f h w p q r ch = v).
  { rewrite (view7_at F H W P Q T C) by done.
    replace ((((((f * H + h) * W + w) * P + p) * Q + q) * T + r) * C + ch)%nat
      with (((f * H + h) * W + w) * (P * Q * T * C)
            + (((p * Q + q) * T + r) * C + ch))%nat by ring.
    unfold flat.
    erewrite lookup_concat_uniform; [done | by apply Forall_take | | done].
    rewrite lookup_take_lt; [done|]. by repeat apply idx_lt. }
  set (u7 := chunks H (chunks W (chunks P (chunks Q (chunks T
                (chunks C flat)))))) in *.
  eexists _, _, _, _. split; [reflexivity|].
  unfold einsum_fhwpqrc_cfphqwr.
  split.
  { rewrite list_lookup_fmap, lookup_fmap_seq by done. reflexivity. }
  split.
  { rewrite list_lookup_fmap.
    erewrite (lookup_concat_uniform _ P f p).
    - reflexivity.
    - apply Forall_fmap_seq_length. intros i.
      by rewrite length_fmap, length_seq.
    - by apply lookup_fmap_seq.
    - by apply lookup_fmap_seq. }
  split.
  { rewrite list_lookup_fmap.
    erewrite (lookup_concat_uniform _ Q h q).
    - reflexivity.
    - apply Forall_fmap_seq_length. intros i.
      by rewrite length_fmap, length_seq.
    - by apply lookup_fmap_seq.
    - by apply lookup_fmap_seq. }
  erewrite (lookup_concat_uniform _ T w r).
  - reflexivity.
  - apply Forall_fmap_seq_length. intros i.
    by rewrite length_fmap, length_seq.
  - by apply lookup_fmap_seq.
  - rewrite lookup_fmap_seq by done. by rewrite Hat.
Qed.

Lemma unpatchify_sample_index_witness :
  exists out oc ofp ohq,
    unpatchify_sample (1, 1, 1)%nat 2 [[1; 2]; [3; 4]]%R (1, 1, 2)%nat
      = Ok out /\
    out !! 1%nat = Some oc /\
    oc !! (0 * 1 + 0)%nat = Some ofp /\
    ofp !! (0 * 1 + 0)%nat = Some ohq /\
    ohq !! (1 * 1 + 0)%nat = Some 4%R.
Proof.
  apply (unpatchify_sample_index 1 1 1 2 [[1; 2]; [3; 4]]%R
           1 1 2 0 0 1 0 0 0 1 [3; 4]%R 4%R);
    try (simpl; lia); try reflexivity.
  repeat constructor.
Defined.

(** X16: for a sample of at least [F * H * W] rows of width
    [P * Q * T * c], [unpatchify] returns a tensor of shape
    [c, F * P, H * Q, W * T]. *)
Theorem unpatchify_sample_shape (P Q T C : nat) (u : list (list R))
    (F H W : nat) :
  Forall (fun row => length row = (P * Q * T * C)%nat) u ->
  (F * H * W <= length u)%nat ->
  exists out,
    unpatchify_sample (P, Q, T) C u (F, H, W) = Ok out /\
    length out = C /\
    Forall (fun oc =>
      length oc = (F * P)%nat /\
      Forall (fun ofp =>
        length ofp = (H * Q)%nat /\
        Forall (fun ohq => length ohq = (W * T)%nat) ofp) oc) out.
Proof.
  intros Hu Hlen. unfold unpatchify_sample.
  set (flat := concat (take (F * H * W) u)).
  assert (Hflat : length flat = (F * H * W * P * Q * T * C)%nat).
  { unfold flat. rewrite (length_concat_uniform _ (P * Q * T * C)).
    - rewrite length_take, Nat.min_l by done. ring.
    - by apply Forall_take. }
  rewrite (proj2 (Nat.eqb_eq _ _) Hflat). cbn [ensure bind].
  eexists. split; [reflexivity|].
  unfold einsum_fhwpqrc_cfphqwr.
  split; [by rewrite !length_fmap, length_seq|].
  apply Forall_fmap, Forall_fmap, Forall_forall. intros c _. cbn.
  rewrite length_fmap.
  rewrite (length_concat_uniform _ P)
    by (apply Forall_fmap_seq_length; intros i;
        by rewrite length_fmap, length_seq).
  rewrite length_fmap, length_seq. split; [done|].
  apply Forall_fmap, Forall_concat, Forall_fmap, Forall_forall.
  intros f _. cbn. apply Forall_fmap, Forall_forall. intros p _. cbn.
  rewrite length_fmap.
  rewrite (length_concat_uniform _ Q)
    by (apply Forall_fmap_seq_length; intros i;
        by rewrite length_fmap, length_seq).
  rewrite length_fmap, length_seq. split; [done|].
  apply Forall_fmap, Forall_concat, Forall_fmap, Forall_forall.
  intros h _. cbn. apply Forall_fmap, Forall_forall. intros q _. cbn.
  rewrite (length_concat_uniform _ T)
    by (apply Forall_fmap_seq_length; intros i;
        by rewrite length_fmap, length_seq).
  by rewrite length_fmap, length_seq.
Qed.

Lemma unpatchify_sample_shape_witness :
  exists out,
    unpatchify_sample (1, 1, 1)%nat 2 [[1; 2]; [3; 4]]%R (1, 1, 2)%nat
      = Ok out /\
    length out = 2%nat.
Proof.
  destruct (unpatchify_sample_shape 1 1 1 2 [[1; 2]; [3; 4]]%R 1 1 2)
    as (out & Hout & Hl & _); [repeat constructor | simpl; lia |].
  exists out. split; [exact Hout | exact Hl].
Defined.

(** X17: a sample with fewer rows than its grid has patches cannot be
    viewed, and [unpatchify] raises, when the rows have the width
    [P * Q * T * c] and this width is not 0. *)
Theorem unpatchify_sample_short (P Q T C : nat) (u : list (list R))
    (F H W : nat) :
  Forall (fun row => length row = (P * Q * T * C)%nat) u ->
  (0 < P * Q * T * C)%nat ->
  (length u < F * H * W)%nat ->
  unpatchify_sample (P, Q, T) C u (F, H, W) = Err RuntimeError.
Proof.
  intros Hu Hwidth Hshort. unfold unpatchify_sample.
  rewrite take_ge by lia.
  rewrite (length_concat_uniform _ (P * Q * T * C)) by done.
  replace (_ =? _)%nat with false; [done|].
  symmetry. apply Nat.eqb_neq.
  replace (F * H * W * P * Q * T * C)%nat
    with (F * H * W * (P * Q * T * C))%nat by ring.
  nia.
Qed.

Lemma unpatchify_sample_short_witness :
  unpatchify_sample (1, 1, 1)%nat 2 [[1; 2]]%R (1, 1, 2)%nat
  = Err RuntimeError.
Proof.
  apply (unpatchify_sample_short 1 1 1 2 [[1; 2]]%R 1 1 2);
    [repeat constructor | simpl; lia | simpl; lia].
Defined.
